(** * Upload utility: session store, upload gateway and client form

    A shallow embedding of [server.js] (the Express handlers for
    /login, /register, /profile, /update-profile and /upload) and of the
    browser script [app.js] (the submit handler of the upload form),
    followed by the properties of the specification that concern them.

    Conventions of the embedding.
    - A request field, header or query parameter is an [option string]:
      [None] is JavaScript's [undefined] (field absent), [Some s] a string.
      The specification types every field as a string.
    - The array [users] is a [list user]; an account is identified by its
      index, which never changes because the code only pushes at the end and
      mutates elements in place.
    - [users.find(p)] is stdpp's [list_find]: the first index whose element
      satisfies [p], together with that element.  Mutating the object that
      [find] returned is written as a list update at that index.
    - The subject id typed into the client form is the one string whose
      characters the code inspects (through [trim]); it is a sequence of
      UTF-16 code units, as JavaScript strings are.  All other strings are
      opaque to the code and are plain [string]s.
    - [Math.random()] is the only source of non-determinism on the server.
      A handler that calls [generateToken] receives the base-36 rendering of
      the number drawn, [Math.random().toString(36)], as an extra argument. *)

From Stdlib Require Import String Ascii DecimalString NArith.
From stdpp Require Import base decidable option list strings.

Local Open Scope string_scope.
Local Open Scope nat_scope.
Local Open Scope list_scope.

(** ** JavaScript values *)

Module Js.

(** [!v] for a value that is [undefined] or a string: [undefined] and the
    empty string are falsy, every other string is truthy. *)
Definition falsy (v : option string) : bool :=
  match v with
  | None => true
  | Some s => bool_decide (s = "")
  end.

(** The value of [v] when [v] is truthy (the then-branch of [if (v)]). *)
Definition truthy (v : option string) : option string :=
  if falsy v then None else v.

(** [a || b] on strings. *)
Definition or_else (a : option string) (b : string) : string :=
  match truthy a with
  | Some s => s
  | None => b
  end.

(** [s.substring(n)]: the characters of [s] from index [n] on. *)
Definition substring_from (n : nat) (s : string) : string :=
  substring n (String.length s - n) s.

(** Decimal rendering of a non-negative integer, as in a template
    literal. *)
Definition number_to_string (n : nat) : string :=
  NilZero.string_of_uint (Nat.to_uint n).

End Js.

(** ** Express responses *)

Module Http.

Record response (B : Type) := Response { status : nat; body : B }.
#[global] Arguments Response {B} status body.
#[global] Arguments status {B} r.
#[global] Arguments body {B} r.

(** [res.json(b)] answers with status 200; [res.status(c).json(b)] with
    status [c]. *)
Definition res_json {B} (b : B) : response B := Response 200 b.
Definition res_status_json {B} (c : nat) (b : B) : response B := Response c b.

End Http.

(** ** Session store and auth endpoints (server.js, lines 18-66) *)

Module Auth.
Import Http.

Record user := User {
  username : string;
  password : string;
  role : string;
  sessionToken : option string
}.

Definition set_username (v : string) (u : user) : user :=
  User v (password u) (role u) (sessionToken u).
Definition set_role (v : string) (u : user) : user :=
  User (username u) (password u) v (sessionToken u).
Definition set_sessionToken (v : string) (u : user) : user :=
  User (username u) (password u) (role u) (Some v).

(** Bodies passed to [res.json]. *)
Inductive json :=
| ErrorJson (error : string)
| SessionJson (token name rl : string)
| ProfileJson (name rl : string)
| UpdateJson (success : bool) (name rl : string).

Abbreviation response := (Http.response json).

(** [generateToken]: [Math.random().toString(36).substring(2)], on the
    rendering [random36] of the number drawn. *)
Definition generateToken (random36 : string) : string :=
  Js.substring_from 2 random36.

(** [users.find(u => u.username === username && u.password === password)] *)
Definition find_credentials (b_username b_password : option string)
    (users : list user) : option (nat * user) :=
  list_find (λ u, Some (username u) = b_username ∧ Some (password u) = b_password) users.

(** [users.find(u => u.sessionToken === token)] *)
Definition find_token (token : option string) (users : list user)
    : option (nat * user) :=
  list_find (λ u, sessionToken u = token) users.

(** [users.some(u => u.username === username)] *)
Definition some_username (name : string) (users : list user) : bool :=
  bool_decide (Exists (λ u, username u = name) users).

(** POST /login *)
Definition login (random36 : string) (b_username b_password : option string)
    (users : list user) : list user * response :=
  match find_credentials b_username b_password users with
  | None => (users, res_status_json 401 (ErrorJson "Invalid Login"))
  | Some (i, user) =>
      let token := generateToken random36 in
      let user := set_sessionToken token user in
      (<[i := user]> users,
       res_json (SessionJson token (username user) (role user)))
  end.

(** POST /register *)
Definition register (random36 : string)
    (b_username b_password b_role : option string)
    (users : list user) : list user * response :=
  match Js.truthy b_username, Js.truthy b_password, Js.truthy b_role with
  | Some name, Some pw, Some rl =>
      if some_username name users then
        (users, res_status_json 400 (ErrorJson "Username already exists"))
      else
        let token := generateToken random36 in
        let newUser := User name pw rl (Some token) in
        (users ++ [newUser], res_json (SessionJson token name rl))
  | _, _, _ =>
      (users,
       res_status_json 400 (ErrorJson "Missing username, password or role"))
  end.

(** GET /profile *)
Definition profile (authorization : option string) (users : list user)
    : list user * response :=
  match find_token authorization users with
  | None => (users, res_status_json 401 (ErrorJson "You are not logged in"))
  | Some (_, user) => (users, res_json (ProfileJson (username user) (role user)))
  end.

(** The two conditional assignments of /update-profile. *)
Definition assign_supplied (b_username b_role : option string) (u : user) : user :=
  let u := match Js.truthy b_username with
           | Some name => set_username name u
           | None => u
           end in
  match Js.truthy b_role with
  | Some rl => set_role rl u
  | None => u
  end.

(** POST /update-profile *)
Definition update_profile (authorization : option string)
    (b_username b_role : option string)
    (users : list user) : list user * response :=
  match find_token authorization users with
  | None => (users, res_status_json 401 (ErrorJson "You are not logged in"))
  | Some (i, user) =>
      let user := assign_supplied b_username b_role user in
      (<[i := user]> users,
       res_json (UpdateJson true (username user) (role user)))
  end.

(** A request to one of the four endpoints.  [Login] and [Register] carry
    the rendering of the random number their handler would draw. *)
Inductive request :=
| Login (random36 : string) (b_username b_password : option string)
| Register (random36 : string) (b_username b_password b_role : option string)
| GetProfile (authorization : option string)
| UpdateProfile (authorization : option string) (b_username b_role : option string).

Definition handle (users : list user) (r : request) : list user * response :=
  match r with
  | Login rnd n p => login rnd n p users
  | Register rnd n p rl => register rnd n p rl users
  | GetProfile a => profile a users
  | UpdateProfile a n rl => update_profile a n rl users
  end.

(** The store after a sequence of requests. *)
Definition run (reqs : list request) (users : list user) : list user :=
  foldl (λ s r, (handle s r).1) users reqs.

(** The responses of a sequence of requests, in order. *)
Fixpoint responses (reqs : list request) (users : list user) : list response :=
  match reqs with
  | [] => []
  | r :: reqs => (handle users r).2 :: responses reqs (handle users r).1
  end.

(** [let users = []] when the process starts. *)
Definition initial : list user := [].

(** The uniqueness invariant of the data model. *)
Definition unique_usernames (users : list user) : Prop :=
  NoDup (username <$> users).

(** The tokens that [generateToken] has in store for the Login and
    Register requests of a sequence (a handler that fails does not call
    it). *)
Definition generated (reqs : list request) : list string :=
  omap (λ r, match r with
             | Login rnd _ _ | Register rnd _ _ _ => Some (generateToken rnd)
             | _ => None
             end) reqs.

(** Every account holds a session token, and it satisfies [P]. *)
Definition tokens_satisfy (P : string → Prop) (users : list user) : Prop :=
  Forall (λ u, ∃ t, sessionToken u = Some t ∧ P t) users.

(** The token in a response, when the response carries one. *)
Definition returned_token (resp : response) : option string :=
  match body resp with
  | SessionJson token _ _ => Some token
  | _ => None
  end.

(** The account (index in [users]) that a login request resolves to. *)
Definition login_account (users : list user) (r : request) : option nat :=
  match r with
  | Login _ n p => fst <$> find_credentials n p users
  | _ => None
  end.



End Auth.

(** ** Presigned-URL endpoint (server.js, lines 69-90) *)

Module Upload.
Import Http.

(** The object [params] handed to [s3.getSignedUrl]. *)
Record params := Params {
  Bucket : option string;
  Key : string;
  Expires : nat;
  ContentType : string
}.

(** What the signer passes to the callback [(err, url)]: an error, of which
    the handler reads [err.message], or the signed URL. *)
Inductive signed :=
| SignError (message : string)
| SignedUrl (url : string).

Inductive json :=
| ErrorJson (error : string)
| UploadJson (uploadURL : string).

(** The observable behaviour of one request: the calls made to the signer
    (operation and parameters) and the response sent. *)
Record outcome := Outcome {
  signer_calls : list (string * params);
  reply : response json
}.

(** GET /upload.  [S3_BUCKET] is [process.env.S3_BUCKET]; [getSignedUrl] is
    the storage client's signer. *)
Definition upload (S3_BUCKET : option string)
    (getSignedUrl : string → params → signed)
    (fileName : option string) : outcome :=
  match Js.truthy fileName with
  | None =>
      Outcome [] (res_status_json 400 (ErrorJson "you are missing filename"))
  | Some fileName =>
      let params := Params S3_BUCKET fileName 60 "text/csv" in
      Outcome [("putObject", params)]
        match getSignedUrl "putObject" params with
        | SignError message => res_status_json 500 (ErrorJson message)
        | SignedUrl url => res_json (UploadJson url)
        end
  end.

(** The spec's reading of "fileName is missing": absent or empty. *)
Definition missing (fileName : option string) : Prop :=
  fileName = None ∨ fileName = Some "".

End Upload.

(** ** Inline-content upload endpoint *)

Module Inline.

(** Modelled from the spec: the outcome of the storage service's direct
    write operation, which on failure reports a status and a message. *)
Inductive write_result :=
| WriteOk
| WriteFailed (code : nat) (message : string).

(** Modelled from the spec: the endpoint returns [{key}] or fails with
    ValidationError or with StorageError. *)
Inductive result :=
| Stored (key : string)
| ValidationError
| StorageError (code : nat) (message : string).

(** Modelled from the spec: the handler of the inline-content upload
    endpoint (the service behind [API_URL], to which the client form posts
    [{subjectId, filename, fileContent}]) is not part of the sources.  The
    specification says: it fails with ValidationError if subjectId or
    filename is empty or fileContent is absent or empty; on success it
    writes fileContent as an object under key = filename and returns
    [{key}]; it fails with StorageError if the write fails, surfacing the
    storage provider's status and message. *)
Definition inline_upload (putObject : string → string → write_result)
    (subjectId filename fileContent : option string) : result :=
  match Js.truthy subjectId, Js.truthy filename, Js.truthy fileContent with
  | Some _, Some filename, Some fileContent =>
      match putObject filename fileContent with
      | WriteOk => Stored filename
      | WriteFailed code message => StorageError code message
      end
  | _, _, _ => ValidationError
  end.

End Inline.

(** ** Client form (app.js) *)

Module Client.

Definition API_URL : string :=
  "https://vv1zh748ti.execute-api.us-east-1.amazonaws.com/upload".

Definition newline : string := String (ascii_of_nat 10) EmptyString.

(** Settlement of an awaited promise.  A rejection carries [err.message] of
    the value thrown ([None] when it has none). *)
Inductive promise (A : Type) :=
| Resolved (value : A)
| Rejected (message : option string).
#[global] Arguments Resolved {A} value.
#[global] Arguments Rejected {A} message.

(** [fileInput.files[0]]: its [name] and the settlement of [file.text()]. *)
Record file := File {
  file_name : string;
  file_text : promise string
}.

(** The value [response.json()] resolves to, as far as the handler looks at
    it: [null], on which reading [.key] throws, or any other value with its
    [key] property ([None] when it has none; the endpoint returns a string
    key). *)
Inductive json_value :=
| JsonNull
| JsonValue (key : option string).

(** The [Response] of [fetch]: its [status] and the settlements of
    [response.text()] and [response.json()]. *)
Record http_response := HttpResponse {
  resp_status : nat;
  resp_text : promise string;
  resp_json : promise json_value
}.

(** [response.ok]: the status is in the range 200-299. *)
Definition ok (r : http_response) : bool :=
  bool_decide (200 ≤ resp_status r ≤ 299).

(** A JavaScript string as the sequence of its UTF-16 code units. *)
Abbreviation code_units := (list N).

(** The code units of a string of ASCII characters. *)
Definition ascii_units (s : string) : code_units :=
  N_of_ascii <$> list_ascii_of_string s.

Record payload := Payload {
  subjectId : code_units;
  filename : string;
  fileContent : string
}.

(** The request given to [fetch]; [body] is the payload that
    [JSON.stringify] serialises. *)
Record fetch_request := FetchRequest {
  url : string;
  method : string;
  content_type : string;
  body : payload
}.

Inductive event :=
| SetStatus (message : string) (isError : bool)
| Fetch (request : fetch_request)
| ConsoleError (message : option string).

(** The code units that [String.prototype.trim] strips: ECMAScript's
    WhiteSpace (U+0009 tab, U+000B vertical tab, U+000C form feed, U+FEFF
    and the space separators U+0020, U+00A0, U+1680, U+2000 to U+200A,
    U+202F, U+205F, U+3000) and LineTerminator (U+000A, U+000D, U+2028,
    U+2029).  All of them are single code units. *)
Definition is_white_space (c : N) : bool :=
  match c with
  | 9 | 10 | 11 | 12 | 13 | 32 | 160 | 5760
  | 8232 | 8233 | 8239 | 8287 | 12288 | 65279 => true
  | _ => (8192 <=? c) && (c <=? 8202)
  end%N.

(** [String.prototype.trim]: leading white space is removed, then trailing
    white space. *)
Fixpoint trim_start (s : code_units) : code_units :=
  match s with
  | c :: s' => if is_white_space c then trim_start s' else s
  | [] => []
  end.

Definition trim (s : code_units) : code_units :=
  reverse (trim_start (reverse (trim_start s))).

(** The template literal of the [catch] block. *)
Definition error_text (err_message : option string) : string :=
  "Error uploading file:" +:+ newline +:+
  Js.or_else err_message "Unknown error".

(** The template literal shown after a successful upload. *)
Definition success_text (key : option string) : string :=
  "Upload successful." +:+ newline +:+ "S3 key: " +:+
  Js.or_else key "(see Lambda logs)".

(** The message of the [Error] thrown on a response that is not ok. *)
Definition api_error (status : nat) (text : string) : string :=
  "API returned " +:+ Js.number_to_string status +:+ ": " +:+ text.

(** The [catch] block. *)
Definition catch (err_message : option string) : list event :=
  [ConsoleError err_message; SetStatus (error_text err_message) true].

(** The submit handler.  [value] is [subjectIdInput.value] ([!subjectId]
    holds of a string exactly when it is empty), [files0] is
    [fileInput.files[0]], [fetch] gives the settlement of the request, and
    [null_key_error] is the message of the engine's TypeError for reading a
    property of [null].  The result is the sequence of observable effects. *)
Definition submit (null_key_error : option string)
    (fetch : fetch_request → promise http_response)
    (value : code_units) (files0 : option file) : list event :=
  let subjectId := trim value in
  if bool_decide (subjectId = []) then
    [SetStatus "Please enter a Player / Patient ID." true]
  else
    match files0 with
    | None => [SetStatus "Please choose a CSV file to upload." true]
    | Some file =>
        SetStatus "Uploading file, please wait..." false ::
        match file_text file with
        | Rejected e => catch e
        | Resolved fileText =>
            let payload := Payload subjectId (file_name file) fileText in
            let request := FetchRequest API_URL "POST" "application/json" payload in
            Fetch request ::
            match fetch request with
            | Rejected e => catch e
            | Resolved response =>
                if negb (ok response) then
                  match resp_text response with
                  | Rejected e => catch e
                  | Resolved text =>
                      catch (Some (api_error (resp_status response) text))
                  end
                else
                  let data := match resp_json response with
                              | Rejected _ => JsonValue None
                              | Resolved data => data
                              end in
                  match data with
                  | JsonNull => catch null_key_error
                  | JsonValue key =>
                      [SetStatus (success_text key) false]
                  end
            end
        end
    end.

(** The states of the form. *)
Inductive phase := Idle | Uploading | Success | Error.

(** The state a status message puts the form in.  The two messages of the
    local validation do not start an upload: the form stays where it is. *)
Definition phase_of (e : event) : option phase :=
  match e with
  | SetStatus message isError =>
      if String.prefix "Uploading file" message then Some Uploading
      else if String.prefix "Upload successful." message then Some Success
      else if String.prefix "Error uploading file:" message then Some Error
      else None
  | _ => None
  end.

(** The transitions a run of the handler goes through, in order. *)
Definition phases (events : list event) : list phase := omap phase_of events.

(** The requests issued by a run of the handler. *)
Definition requests (events : list event) : list fetch_request :=
  omap (λ e, match e with Fetch r => Some r | _ => None end) events.

(** The text left in the status box by a run of the handler. *)
Definition shown (events : list event) : option string :=
  last (omap (λ e, match e with SetStatus m _ => Some m | _ => None end) events).

(** The element [statusBox], as far as [setStatus] touches it: its text and
    its list of classes (a [DOMTokenList], which holds no token twice). *)
Record status_box := StatusBox {
  textContent : string;
  classList : list string
}.

(** [classList.toggle(token, force)]: with [force] true the token is added
    unless it is there, with [force] false it is removed. *)
Definition toggle (token : string) (force : bool) (classes : list string)
    : list string :=
  if force then
    if bool_decide (token ∈ classes) then classes else classes ++ [token]
  else filter (λ c, c ≠ token) classes.

(** [setStatus(message, isError)] (app.js, lines 8-11). *)
Definition setStatus (message : string) (isError : bool) (statusBox : status_box)
    : status_box :=
  StatusBox message (toggle "status-error" isError (classList statusBox)).

(** The status box after the effects of a run of the handler. *)
Definition display (events : list event) (statusBox : status_box) : status_box :=
  foldl (λ box e, match e with
                  | SetStatus message isError => setStatus message isError box
                  | _ => box
                  end) statusBox events.

End Client.

(** * Properties *)

(** ** Truthiness *)

Section truthiness.
Import Js.

Lemma truthy_Some (v : option string) (s : string) :
  truthy v = Some s ↔ v = Some s ∧ s ≠ "".
Proof.
  unfold truthy, falsy. destruct v as [x|]; simpl.
  - case_bool_decide; split; try intros [[= ->] ?]; try intros [= ->];
      congruence || done.
  - split; [done | by intros [? _]].
Qed.

Lemma truthy_None (v : option string) :
  truthy v = None ↔ v = None ∨ v = Some "".
Proof.
  unfold truthy, falsy. destruct v as [x|]; simpl.
  - case_bool_decide as Hx; split.
    + right. by rewrite Hx.
    + done.
    + done.
    + intros [|[= ->]]; done.
  - split; auto.
Qed.

Lemma truthy_nonempty (s : string) : s ≠ "" → truthy (Some s) = Some s.
Proof. intros. by apply truthy_Some. Qed.

Lemma or_else_falsy (v : option string) (d : string) :
  truthy v = None → or_else v d = d.
Proof. unfold or_else. by intros ->. Qed.

End truthiness.

(** ** The account list *)

Section store.
Import Js Http Auth.

Implicit Types (users s : list user) (u : user) (i j : nat).
Implicit Types (auth : option string).

Lemma find_token_Some auth s i u :
  find_token auth s = Some (i, u) ↔
  s !! i = Some u ∧ sessionToken u = auth ∧
  ∀ j y, s !! j = Some y → j < i → sessionToken y ≠ auth.
Proof. unfold find_token. by rewrite list_find_Some. Qed.

Lemma find_token_None auth s :
  find_token auth s = None ↔ Forall (λ u, sessionToken u ≠ auth) s.
Proof. unfold find_token. by rewrite list_find_None. Qed.

Lemma some_username_true (name : string) s :
  some_username name s = true ↔ ∃ u, u ∈ s ∧ username u = name.
Proof.
  unfold some_username. rewrite bool_decide_eq_true. apply Exists_exists.
Qed.

Lemma some_username_false (name : string) s :
  some_username name s = false ↔ Forall (λ u, username u ≠ name) s.
Proof.
  unfold some_username. rewrite bool_decide_eq_false.
  rewrite <- Forall_Exists_neg. done.
Qed.

Lemma register_missing rnd (n p r : option string) s :
  falsy n || falsy p || falsy r = true →
  register rnd n p r s =
    (s, res_status_json 400 (ErrorJson "Missing username, password or role")).
Proof.
  unfold register, truthy.
  destruct (falsy n), (falsy p), (falsy r); simpl; try done;
    by repeat case_match.
Qed.

Lemma register_taken rnd (name pw rl : string) s :
  name ≠ "" → pw ≠ "" → rl ≠ "" →
  (∃ u, u ∈ s ∧ username u = name) →
  register rnd (Some name) (Some pw) (Some rl) s =
    (s, res_status_json 400 (ErrorJson "Username already exists")).
Proof.
  intros Hn Hp Hr Hin. unfold register.
  rewrite !truthy_nonempty by done.
  apply some_username_true in Hin. by rewrite Hin.
Qed.

Lemma register_fresh rnd (name pw rl : string) s :
  name ≠ "" → pw ≠ "" → rl ≠ "" →
  Forall (λ u, username u ≠ name) s →
  register rnd (Some name) (Some pw) (Some rl) s =
    (s ++ [User name pw rl (Some (generateToken rnd))],
     res_json (SessionJson (generateToken rnd) name rl)).
Proof.
  intros Hn Hp Hr Hfresh. unfold register.
  rewrite !truthy_nonempty by done.
  apply some_username_false in Hfresh. by rewrite Hfresh.
Qed.

(** What /update-profile leaves on the matched account. *)
Lemma assign_supplied_fields (n rl : option string) u :
  assign_supplied n rl u =
    User (or_else n (username u)) (password u) (or_else rl (role u))
         (sessionToken u).
Proof.
  unfold assign_supplied, or_else.
  destruct u; by destruct (truthy n), (truthy rl).
Qed.

Lemma update_profile_found auth (n rl : option string) s i u :
  find_token auth s = Some (i, u) →
  update_profile auth n rl s =
    (<[i := assign_supplied n rl u]> s,
     res_json (UpdateJson true (or_else n (username u)) (or_else rl (role u)))).
Proof.
  intros Hf. unfold update_profile. rewrite Hf.
  by rewrite assign_supplied_fields.
Qed.

Lemma find_token_lookup auth s i u :
  find_token auth s = Some (i, u) → s !! i = Some u.
Proof. by intros (? & _)%find_token_Some. Qed.

End store.

(** ** Usernames *)

Section usernames.
Import Js Http Auth.

Implicit Types (users s : list user) (u : user) (i j : nat).

Lemma usernames_insert s i u v :
  s !! i = Some u → username v = username u →
  username <$> <[i := v]> s = username <$> s.
Proof.
  intros Hi Hv. rewrite list_fmap_insert, Hv.
  apply list_insert_id. by rewrite list_lookup_fmap, Hi.
Qed.

(** Every handler keeps usernames unique, except /update-profile when it is
    given a username. *)
Lemma handle_unique_usernames s (r : request) :
  (∀ a n rl, r = UpdateProfile a n rl → truthy n = None) →
  unique_usernames s → unique_usernames (handle s r).1.
Proof.
  unfold unique_usernames. intros Hr Hs. destruct r as [rnd n p|rnd n p rl|a|a n rl]; simpl.
  - unfold login. destruct (find_credentials n p s) as [[i u]|] eqn:Hf; [|done].
    simpl. apply list_find_Some in Hf as (Hi & _).
    by rewrite (usernames_insert s i u).
  - unfold register.
    destruct (truthy n) as [name|]; [|done].
    destruct (truthy p) as [pw|]; [|done].
    destruct (truthy rl) as [rl'|]; [|done].
    destruct (some_username name s) eqn:Hsome; [done|]. simpl.
    rewrite fmap_app. apply NoDup_app. split_and!; [done| |apply NoDup_singleton].
    intros x Hx [->|[]%elem_of_nil]%elem_of_cons.
    apply some_username_false in Hsome.
    apply list_elem_of_fmap in Hx as (u & Hu & Hin).
    rewrite Forall_forall in Hsome. by apply (Hsome u).
  - unfold profile. by destruct (find_token a s) as [[? ?]|].
  - unfold update_profile. destruct (find_token a s) as [[i u]|] eqn:Hf; [|done].
    simpl. apply find_token_lookup in Hf.
    rewrite (usernames_insert s i u); [done..|].
    rewrite assign_supplied_fields. simpl.
    by rewrite or_else_falsy by eauto.
Qed.

(** C1, at the failing input: Register keeps usernames unique by refusing a
    name that is taken, but /update-profile assigns the supplied username
    without that check.  After alice and bob have registered, bob renames
    himself to alice; the request succeeds and the store holds two accounts
    named alice, so the uniqueness invariant is broken. *)
Theorem update_profile_rename_breaks_uniqueness :
  let reqs :=
    [Register "0.abc" (Some "alice") (Some "pw") (Some "analyst");
     Register "0.xyz" (Some "bob") (Some "pw2") (Some "coach");
     UpdateProfile (Some "xyz") (Some "alice") None] in
  responses reqs initial =
    [res_json (SessionJson "abc" "alice" "analyst");
     res_json (SessionJson "xyz" "bob" "coach");
     res_json (UpdateJson true "alice" "coach")] ∧
  run reqs initial =
    [User "alice" "pw" "analyst" (Some "abc");
     User "alice" "pw2" "coach" (Some "xyz")] ∧
  ¬ unique_usernames (run reqs initial).
Proof.
  split_and!; [by vm_compute..|].
  intros Hu. vm_compute in Hu.
  apply NoDup_cons in Hu as [Hnotin _]. apply Hnotin. left.
Qed.

End usernames.

(** ** Register *)

Section registration.
Import Js Http Auth.

Implicit Types (users s : list user) (u : user).

(** C3, as amended: for non-empty [name], [pw1] and [rl1], Register on a
    store without [name] succeeds and appends the account; a second
    Register with the same name answers 400 and leaves the store unchanged
    whatever password and role it carries.  Its error is the
    duplicate-username conflict when the second password and role are
    non-empty, and the missing-field validation error otherwise. *)
Theorem register_twice s (name pw1 rl1 : string) (rnd1 : string) :
  name ≠ "" → pw1 ≠ "" → rl1 ≠ "" →
  Forall (λ u, username u ≠ name) s →
  let first := register rnd1 (Some name) (Some pw1) (Some rl1) s in
  first.1 = s ++ [User name pw1 rl1 (Some (generateToken rnd1))] ∧
  first.2 = res_json (SessionJson (generateToken rnd1) name rl1) ∧
  ∀ (rnd2 : string) (pw2 rl2 : option string),
    let second := register rnd2 (Some name) pw2 rl2 first.1 in
    second.1 = first.1 ∧
    status second.2 = 400 ∧
    body second.2 =
      ErrorJson (if falsy pw2 || falsy rl2
                 then "Missing username, password or role"
                 else "Username already exists").
Proof.
  intros Hn Hp Hr Hfresh first. subst first.
  rewrite register_fresh by done. simpl. split_and!; [done..|].
  intros rnd2 pw2 rl2.
  destruct (falsy pw2 || falsy rl2) eqn:Hf.
  - rewrite register_missing; [done|].
    by rewrite <- orb_assoc, Hf, orb_true_r.
  - apply orb_false_iff in Hf as [Hp2 Hr2].
    destruct pw2 as [pw2|], rl2 as [rl2|]; try done.
    simpl in Hp2, Hr2. apply bool_decide_eq_false in Hp2, Hr2.
    rewrite register_taken; [done..|].
    eexists. split; [apply elem_of_app; right; apply list_elem_of_singleton; done|done].
Qed.

Lemma register_twice_witness :
  let first := register "0.abc" (Some "alice") (Some "pw") (Some "analyst") [] in
  first.1 = [] ++ [User "alice" "pw" "analyst" (Some (generateToken "0.abc"))] ∧
  first.2 = res_json (SessionJson (generateToken "0.abc") "alice" "analyst") ∧
  ∀ (rnd2 : string) (pw2 rl2 : option string),
    let second := register rnd2 (Some "alice") pw2 rl2 first.1 in
    second.1 = first.1 ∧
    status second.2 = 400 ∧
    body second.2 =
      ErrorJson (if falsy pw2 || falsy rl2
                 then "Missing username, password or role"
                 else "Username already exists").
Proof.
  apply (register_twice [] "alice" "pw" "analyst" "0.abc"); [done..|].
  apply Forall_nil_2.
Defined.

(** C3, as stated, fails on empty fields: a first Register with an empty
    password does not succeed, and a second Register with an empty password
    is refused for the missing field, not for the duplicate username. *)
Lemma register_empty_password_not_conflict :
  register "0.abc" (Some "alice") (Some "") (Some "analyst") [] =
    ([], res_status_json 400 (ErrorJson "Missing username, password or role")) ∧
  let s1 := (register "0.abc" (Some "alice") (Some "pw") (Some "analyst") []).1 in
  (register "0.xyz" (Some "alice") (Some "") (Some "coach") s1).2 =
    res_status_json 400 (ErrorJson "Missing username, password or role") ∧
  (register "0.xyz" (Some "alice") (Some "") (Some "coach") s1).2 ≠
    res_status_json 400 (ErrorJson "Username already exists").
Proof. by vm_compute. Qed.

End registration.

(** ** Profile updates *)

Section profile_updates.
Import Js Http Auth.

Implicit Types (users s : list user) (u : user) (i j : nat).
Implicit Types (auth : option string).

(** C5: on the account matched by the token, /update-profile with body
    [{role: "coach"}] sets the role to "coach" and leaves the username, the
    password and the session token as they were; all other accounts are
    unchanged.  With an empty body the store is unchanged and the answer is
    still 200 with the account's username and role. *)
Theorem update_profile_role_only auth s i u :
  find_token auth s = Some (i, u) →
  let out := update_profile auth None (Some "coach") s in
  out.2 = res_json (UpdateJson true (username u) "coach") ∧
  out.1 !! i = Some (User (username u) (password u) "coach" (sessionToken u)) ∧
  (∀ j, j ≠ i → out.1 !! j = s !! j) ∧
  length out.1 = length s ∧
  update_profile auth None None s =
    (s, res_json (UpdateJson true (username u) (role u))).
Proof.
  intros Hf out. subst out.
  pose proof (find_token_lookup _ _ _ _ Hf) as Hi.
  rewrite !(update_profile_found auth _ _ s i u Hf), !assign_supplied_fields.
  simpl. split_and!.
  - done.
  - apply list_lookup_insert_eq. by eapply lookup_lt_Some.
  - intros j Hj. by apply list_lookup_insert_ne.
  - apply length_insert.
  - f_equal. apply list_insert_id. rewrite Hi. by destruct u.
Qed.

Lemma update_profile_role_only_witness :
  let s := [User "alice" "pw" "analyst" (Some "abc")] in
  let out := update_profile (Some "abc") None (Some "coach") s in
  out.2 = res_json (UpdateJson true "alice" "coach") ∧
  out.1 !! 0 = Some (User "alice" "pw" "coach" (Some "abc")) ∧
  (∀ j, j ≠ 0 → out.1 !! j = s !! j) ∧
  length out.1 = length s ∧
  update_profile (Some "abc") None None s =
    (s, res_json (UpdateJson true "alice" "analyst")).
Proof.
  apply (update_profile_role_only (Some "abc")
           [User "alice" "pw" "analyst" (Some "abc")] 0
           (User "alice" "pw" "analyst" (Some "abc"))).
  reflexivity.
Defined.

(** C9: on the account matched by the token, a username supplied as the
    empty string leaves the username unchanged, and likewise for the role:
    a field is overwritten only by a truthy value.  The call still answers
    200, with the prior value of the field. *)
Theorem update_profile_empty_string auth s i u :
  find_token auth s = Some (i, u) →
  (∀ n rl : option string,
     update_profile auth n rl s =
       (<[i := User (or_else n (username u)) (password u)
                    (or_else rl (role u)) (sessionToken u)]> s,
        res_json (UpdateJson true (or_else n (username u))
                             (or_else rl (role u))))) ∧
  (∀ rl : option string,
     let out := update_profile auth (Some "") rl s in
     (∃ v, out.1 !! i = Some v ∧ username v = username u) ∧
     status out.2 = 200 ∧
     ∃ rl', body out.2 = UpdateJson true (username u) rl') ∧
  (∀ n : option string,
     let out := update_profile auth n (Some "") s in
     (∃ v, out.1 !! i = Some v ∧ role v = role u) ∧
     status out.2 = 200 ∧
     ∃ n', body out.2 = UpdateJson true n' (role u)) ∧
  update_profile auth (Some "") (Some "") s =
    (s, res_json (UpdateJson true (username u) (role u))).
Proof.
  intros Hf.
  pose proof (find_token_lookup _ _ _ _ Hf) as Hi.
  assert (i < length s) as Hlt by by eapply lookup_lt_Some.
  assert (∀ n rl : option string,
     update_profile auth n rl s =
       (<[i := User (or_else n (username u)) (password u)
                    (or_else rl (role u)) (sessionToken u)]> s,
        res_json (UpdateJson true (or_else n (username u))
                             (or_else rl (role u))))) as Hgen.
  { intros n rl.
    by rewrite (update_profile_found auth _ _ s i u Hf), assign_supplied_fields. }
  split_and!.
  - done.
  - intros rl out. subst out. rewrite Hgen. simpl. split_and!.
    + eexists. split; [by apply list_lookup_insert_eq|done].
    + done.
    + by eexists.
  - intros n out. subst out. rewrite Hgen. simpl. split_and!.
    + eexists. split; [by apply list_lookup_insert_eq|done].
    + done.
    + by eexists.
  - rewrite Hgen. simpl. f_equal.
    apply list_insert_id. rewrite Hi. by destruct u.
Qed.

Lemma update_profile_empty_string_witness :
  update_profile (Some "abc") (Some "") (Some "")
    [User "alice" "pw" "analyst" (Some "abc")] =
  ([User "alice" "pw" "analyst" (Some "abc")],
   res_json (UpdateJson true "alice" "analyst")).
Proof.
  apply (update_profile_empty_string (Some "abc")
           [User "alice" "pw" "analyst" (Some "abc")] 0
           (User "alice" "pw" "analyst" (Some "abc"))).
  reflexivity.
Defined.

End profile_updates.

(** ** Session tokens *)

Section tokens.
Import Js Http Auth.

Implicit Types (users s : list user) (u : user) (i j : nat).
Implicit Types (auth : option string) (t : string).

Lemma handle_tokens_satisfy (P : string → Prop) s (r : request) :
  Forall P (generated [r]) →
  tokens_satisfy P s → tokens_satisfy P (handle s r).1.
Proof.
  unfold tokens_satisfy. intros Hr Hs.
  destruct r as [rnd n p|rnd n p rl|a|a n rl]; simpl in *.
  - rewrite Forall_singleton in Hr.
    unfold login. destruct (find_credentials n p s) as [[i u]|]; [|done].
    simpl. apply Forall_insert; [done|]. eexists. split; [reflexivity|exact Hr].
  - rewrite Forall_singleton in Hr. unfold register.
    destruct (truthy n) as [name|]; [|done].
    destruct (truthy p) as [pw|]; [|done].
    destruct (truthy rl) as [rl'|]; [|done].
    destruct (some_username name s); [done|]. simpl.
    apply Forall_app. split; [done|]. apply Forall_singleton.
    eexists. split; [reflexivity|exact Hr].
  - unfold profile. by destruct (find_token a s) as [[? ?]|].
  - unfold update_profile. destruct (find_token a s) as [[i u]|] eqn:Hf; [|done].
    simpl. apply Forall_insert; [done|].
    rewrite assign_supplied_fields. simpl.
    apply find_token_lookup in Hf.
    by apply (Forall_lookup_1 _ _ _ _ Hs Hf).
Qed.

Lemma generated_cons (r : request) (reqs : list request) :
  generated (r :: reqs) = generated [r] ++ generated reqs.
Proof. unfold generated. by rewrite <- omap_app. Qed.

Lemma run_tokens_satisfy (P : string → Prop) (reqs : list request) s :
  Forall P (generated reqs) →
  tokens_satisfy P s → tokens_satisfy P (run reqs s).
Proof.
  revert s. induction reqs as [|r reqs IH]; intros s Hgen Hs; [done|].
  change (run (r :: reqs) s) with (run reqs (handle s r).1).
  rewrite generated_cons in Hgen.
  apply Forall_app in Hgen as [Hr Hreqs].
  apply IH; [done|]. by apply handle_tokens_satisfy.
Qed.

Lemma no_header_unauthorized s :
  tokens_satisfy (λ _, True) s → find_token None s = None.
Proof.
  intros Hs. apply find_token_None.
  eapply Forall_impl; [exact Hs|]. intros u (t & Ht & _). by rewrite Ht.
Qed.

Lemma generateToken_nonempty (random36 : string) :
  2 < String.length random36 → generateToken random36 ≠ "".
Proof.
  unfold generateToken, substring_from.
  destruct random36 as [|a [|b [|c rest]]]; simpl; [lia..|done].
Qed.

Lemma generated_nonempty (reqs : list request) :
  (∀ rnd n p, Login rnd n p ∈ reqs → 2 < String.length rnd) →
  (∀ rnd n p rl, Register rnd n p rl ∈ reqs → 2 < String.length rnd) →
  Forall (λ t, t ≠ "") (generated reqs).
Proof.
  intros Hlogin Hregister. apply Forall_forall. intros t Ht.
  apply list_elem_of_omap in Ht as (r & Hr & Hgen).
  destruct r as [rnd n p|rnd n p rl|a|a n rl]; simplify_eq.
  - eapply generateToken_nonempty, Hlogin, Hr.
  - eapply generateToken_nonempty, Hregister, Hr.
Qed.

(** C10, as amended: in every store reached from the empty one, each
    account holds a session token (the field is never undefined), and that
    token is one that [generateToken] returned to a Login or Register
    handler.  It is not the empty string as long as every number drawn
    renders with more than two characters, that is, unless [Math.random()]
    returned 0, which renders as "0".  A /profile or /update-profile
    request without an Authorization header is answered 401 and changes
    nothing. *)
Theorem session_token_always_set (reqs : list request) :
  let s := run reqs initial in
  Forall (λ u, ∃ t, sessionToken u = Some t ∧ t ∈ generated reqs) s ∧
  ((∀ rnd n p, Login rnd n p ∈ reqs → 2 < String.length rnd) →
   (∀ rnd n p rl, Register rnd n p rl ∈ reqs → 2 < String.length rnd) →
   Forall (λ u, ∃ t, sessionToken u = Some t ∧ t ≠ "") s) ∧
  profile None s =
    (s, res_status_json 401 (ErrorJson "You are not logged in")) ∧
  ∀ n rl : option string,
    update_profile None n rl s =
      (s, res_status_json 401 (ErrorJson "You are not logged in")).
Proof.
  intros s.
  assert (tokens_satisfy (λ t, t ∈ generated reqs) s) as Hs.
  { apply run_tokens_satisfy; [by apply Forall_forall|apply Forall_nil_2]. }
  assert (find_token None s = None) as Hnone.
  { apply no_header_unauthorized.
    eapply Forall_impl; [exact Hs|]. intros u (t & ? & _). by exists t. }
  split_and!; [done| | |intros n rl].
  - intros Hlogin Hregister.
    apply (run_tokens_satisfy (λ t, t ≠ "")); [|apply Forall_nil_2].
    by apply generated_nonempty.
  - unfold profile. by rewrite Hnone.
  - unfold update_profile. by rewrite Hnone.
Qed.

Lemma session_token_always_set_witness :
  let reqs := [Register "0.abc" (Some "alice") (Some "pw") (Some "analyst");
               Login "0.xyz" (Some "alice") (Some "pw")] in
  Forall (λ u, ∃ t, sessionToken u = Some t ∧ t ≠ "") (run reqs initial).
Proof.
  intros reqs.
  apply (session_token_always_set reqs).
  - intros rnd n p Hin.
    apply elem_of_cons in Hin as [[=]|Hin].
    apply elem_of_cons in Hin as [Heq|Hin]; [|by apply elem_of_nil in Hin].
    inversion Heq. simpl. lia.
  - intros rnd n p rl Hin.
    apply elem_of_cons in Hin as [Heq|Hin].
    + inversion Heq. simpl. lia.
    + apply elem_of_cons in Hin as [[=]|Hin]. by apply elem_of_nil in Hin.
Defined.

(** C10, as stated, fails when [Math.random()] returns 0: the number
    renders as "0", [generateToken] returns the empty string, and the
    account is created with an empty session token, which a request with an
    empty Authorization value then matches. *)
Lemma zero_draw_stores_empty_token :
  let s := run [Register "0" (Some "alice") (Some "pw") (Some "analyst")]
               initial in
  s = [User "alice" "pw" "analyst" (Some "")] ∧
  ¬ Forall (λ u, ∃ t, sessionToken u = Some t ∧ t ≠ "") s ∧
  profile (Some "") s = (s, res_json (ProfileJson "alice" "analyst")).
Proof.
  split_and!; [by vm_compute| |by vm_compute].
  vm_compute. intros Hall. apply Forall_cons in Hall as [(t & [= <-] & Hne) _].
  by apply Hne.
Qed.

End tokens.

(** ** Authentication by token *)

Section authentication.
Import Js Http Auth.

Implicit Types (users s : list user) (u v : user) (i j : nat).
Implicit Types (auth : option string) (t : string).

Lemma login_account_Some s (r : request) i :
  login_account s r = Some i →
  ∃ rnd n p u, r = Login rnd n p ∧ find_credentials n p s = Some (i, u).
Proof.
  destruct r as [rnd n p| | |]; simpl; try done.
  destruct (find_credentials n p s) as [[j u]|] eqn:Hf; simpl; [|done].
  intros [= ->]. by exists rnd, n, p, u.
Qed.





Lemma unknown_token_rejected s auth :
  Forall (λ u, sessionToken u ≠ auth) s →
  profile auth s =
    (s, res_status_json 401 (ErrorJson "You are not logged in")) ∧
  ∀ n rl : option string,
    update_profile auth n rl s =
      (s, res_status_json 401 (ErrorJson "You are not logged in")).
Proof.
  intros Hf%find_token_None. unfold profile, update_profile. by rewrite Hf.
Qed.




(** The end-to-end scenario of the specification: alice registers and
    receives T1, logs in and receives T2; /profile with T1 is then answered
    401 and /profile with T2 returns her profile. *)
Example login_supersedes_register_token :
  responses [Register "0.t1" (Some "alice") (Some "pw") (Some "analyst");
             Login "0.t2" (Some "alice") (Some "pw");
             GetProfile (Some "t1");
             GetProfile (Some "t2")] initial =
    [res_json (SessionJson "t1" "alice" "analyst");
     res_json (SessionJson "t2" "alice" "analyst");
     res_status_json 401 (ErrorJson "You are not logged in");
     res_json (ProfileJson "alice" "analyst")].
Proof. reflexivity. Qed.

End authentication.

(** ** Login *)

Section credentials.
Import Js Http Auth.

Implicit Types (users s : list user) (u v : user) (i j : nat).

Lemma unique_usernames_lookup s i j u v :
  unique_usernames s →
  s !! i = Some u → s !! j = Some v → username u = username v → i = j.
Proof.
  intros Hnd Hi Hj Heq.
  apply (NoDup_lookup _ i j (username u) Hnd); rewrite list_lookup_fmap.
  - by rewrite Hi.
  - by rewrite Hj, Heq.
Qed.

Lemma login_found rnd (n p : option string) s i u :
  find_credentials n p s = Some (i, u) →
  login rnd n p s =
    (<[i := set_sessionToken (generateToken rnd) u]> s,
     res_json (SessionJson (generateToken rnd) (username u) (role u))).
Proof. intros Hf. unfold login. by rewrite Hf. Qed.

(** C4, as amended: Login with the exact username and password of a
    registered account always succeeds and returns the freshly generated
    token.  On a store whose usernames are unique, Login with that username
    and any other password is answered 401, and the successful login stores
    the token on that very account and leaves every other account as it
    was.  The token is not compared with the tokens of other accounts. *)
Theorem login_checks_credentials s i u (rnd : string) :
  s !! i = Some u →
  let good := login rnd (Some (username u)) (Some (password u)) s in
  status good.2 = 200 ∧
  returned_token good.2 = Some (generateToken rnd) ∧
  (unique_usernames s →
     (∀ pw : option string, pw ≠ Some (password u) →
        login rnd (Some (username u)) pw s =
          (s, res_status_json 401 (ErrorJson "Invalid Login"))) ∧
     good = (<[i := set_sessionToken (generateToken rnd) u]> s,
             res_json (SessionJson (generateToken rnd) (username u) (role u))) ∧
     ∀ j, j ≠ i → good.1 !! j = s !! j).
Proof.
  intros Hi good.
  assert (is_Some (find_credentials (Some (username u)) (Some (password u)) s))
    as [[j v] Hf].
  { eapply list_find_elem_of; [by eapply list_elem_of_lookup_2|done]. }
  subst good. rewrite (login_found _ _ _ _ _ _ Hf). simpl.
  split_and!; [done..|]. intros Huniq.
  apply list_find_Some in Hf as (Hj & [Hname Hpw] & _).
  assert (j = i) as ->.
  { apply (unique_usernames_lookup s j i v u Huniq Hj Hi). congruence. }
  assert (v = u) as -> by congruence.
  split_and!; [|done|].
  - intros pw Hwrong. unfold login.
    assert (find_credentials (Some (username u)) pw s = None) as ->; [|done].
    apply list_find_None, Forall_lookup. intros k w Hk [Hn Hp].
    assert (k = i) as ->.
    { apply (unique_usernames_lookup s k i w u Huniq Hk Hi). congruence. }
    assert (w = u) as -> by congruence. congruence.
  - intros k Hk. by apply list_lookup_insert_ne.
Qed.

Lemma login_checks_credentials_witness :
  let s := [User "alice" "pw" "analyst" (Some "abc")] in
  let good := login "0.xyz" (Some "alice") (Some "pw") s in
  unique_usernames s ∧
  status good.2 = 200 ∧
  returned_token good.2 = Some "xyz" ∧
  login "0.xyz" (Some "alice") (Some "pw1") s =
    (s, res_status_json 401 (ErrorJson "Invalid Login")) ∧
  good = ([User "alice" "pw" "analyst" (Some "xyz")],
          res_json (SessionJson "xyz" "alice" "analyst")).
Proof.
  intros s good.
  assert (unique_usernames s) as Huniq by apply NoDup_singleton.
  destruct (login_checks_credentials s 0
              (User "alice" "pw" "analyst" (Some "abc")) "0.xyz" eq_refl)
    as (Hstatus & Htoken & Hrest).
  destruct (Hrest Huniq) as (Hwrong & Hgood & _).
  split_and!; [done..| |done].
  apply Hwrong. discriminate.
Defined.

(** C4, as stated, fails when the generator returns a token that another
    account holds: bob logs in with his own credentials and receives the
    token that was issued to alice and is still stored on her account. *)
Lemma login_token_equals_other_account_token :
  let alice := Register "0.abc" (Some "alice") (Some "pw") (Some "analyst") in
  let bob := Register "0.xyz" (Some "bob") (Some "pw2") (Some "coach") in
  let s := run [alice; bob] initial in
  returned_token (handle initial alice).2 = Some "abc" ∧
  returned_token (login "0.abc" (Some "bob") (Some "pw2") s).2 = Some "abc" ∧
  (login "0.abc" (Some "bob") (Some "pw2") s).1 =
    [User "alice" "pw" "analyst" (Some "abc");
     User "bob" "pw2" "coach" (Some "abc")].
Proof. by vm_compute. Qed.

(** The first half of C4 depends on the uniqueness of usernames: after the
    renaming of C1, alice's username with a password that is not hers logs
    in, as the renamed account. *)
Lemma wrong_password_accepted_after_rename :
  let s := run [Register "0.abc" (Some "alice") (Some "pw") (Some "analyst");
                Register "0.xyz" (Some "bob") (Some "pw2") (Some "coach");
                UpdateProfile (Some "xyz") (Some "alice") None] initial in
  s !! 0 = Some (User "alice" "pw" "analyst" (Some "abc")) ∧
  (login "0.def" (Some "alice") (Some "pw2") s).2 =
    res_json (SessionJson "def" "alice" "coach").
Proof. by vm_compute. Qed.

End credentials.

(** ** Presigned URLs *)

Section presigned.
Import Js Http Upload.

Lemma missing_truthy (fileName : option string) :
  missing fileName ↔ truthy fileName = None.
Proof. unfold missing. by rewrite truthy_None. Qed.

(** C6: a request whose [fileName] is missing (absent or empty) is answered
    400 without calling the signer.  Any other request calls the signer
    once, for the operation putObject, with the key equal to [fileName], an
    expiry of exactly 60 seconds and the content type "text/csv"; it
    answers [{uploadURL}] with the signed URL, or 500 with the signer's
    error message when signing fails. *)
Theorem upload_signed_url (S3_BUCKET : option string)
    (getSignedUrl : string → params → signed) (fileName : option string) :
  let out := upload S3_BUCKET getSignedUrl fileName in
  (missing fileName →
     out = Outcome [] (res_status_json 400 (ErrorJson "you are missing filename"))) ∧
  (¬ missing fileName →
     ∃ name p,
       fileName = Some name ∧
       signer_calls out = [("putObject", p)] ∧
       Bucket p = S3_BUCKET ∧ Key p = name ∧
       Expires p = 60 ∧ ContentType p = "text/csv" ∧
       (∀ url, getSignedUrl "putObject" p = SignedUrl url →
          reply out = res_json (UploadJson url)) ∧
       (∀ message, getSignedUrl "putObject" p = SignError message →
          reply out = res_status_json 500 (ErrorJson message))).
Proof.
  intros out. subst out. unfold upload. split.
  - intros Hm%missing_truthy. by rewrite Hm.
  - intros Hm. destruct (truthy fileName) as [name|] eqn:Ht.
    + apply truthy_Some in Ht as [-> Hne].
      exists name, (Params S3_BUCKET name 60 "text/csv"). simpl.
      split_and!; [done..| |]; by intros ? ->.
    + by apply missing_truthy in Ht.
Qed.

Lemma upload_signed_url_witness :
  let sign := λ (op : string) (p : params),
    if bool_decide (Key p = "a.csv")
    then SignedUrl "https://bucket.example/a.csv?X-Amz-Expires=60"
    else SignError "access denied" in
  upload None sign None =
    Outcome [] (res_status_json 400 (ErrorJson "you are missing filename")) ∧
  upload None sign (Some "") =
    Outcome [] (res_status_json 400 (ErrorJson "you are missing filename")) ∧
  (∃ name p,
     Some "a.csv" = Some name ∧
     signer_calls (upload (Some "bucket") sign (Some "a.csv")) = [("putObject", p)] ∧
     Bucket p = Some "bucket" ∧ Key p = name ∧
     Expires p = 60 ∧ ContentType p = "text/csv" ∧
     (∀ url, sign "putObject" p = SignedUrl url →
        reply (upload (Some "bucket") sign (Some "a.csv")) = res_json (UploadJson url)) ∧
     (∀ message, sign "putObject" p = SignError message →
        reply (upload (Some "bucket") sign (Some "a.csv")) =
          res_status_json 500 (ErrorJson message))).
Proof.
  intros sign. split_and!.
  - apply (upload_signed_url None sign None). by left.
  - apply (upload_signed_url None sign (Some "")). by right.
  - apply (upload_signed_url (Some "bucket") sign (Some "a.csv")).
    intros [|]; discriminate.
Defined.

End presigned.

(** ** Inline-content upload *)

Section inline.
Import Js Inline.

(** C7: an inline upload whose [fileContent] is empty (or absent) fails
    validation; whenever a key is returned it is the submitted filename, and
    a request with non-empty subjectId, filename and fileContent whose write
    succeeds does return it. *)
Theorem inline_upload_key (putObject : string → string → write_result)
    (subjectId filename fileContent : option string) :
  (falsy fileContent = true →
     inline_upload putObject subjectId filename fileContent = ValidationError) ∧
  (∀ key, inline_upload putObject subjectId filename fileContent = Stored key →
     filename = Some key ∧ falsy fileContent = false) ∧
  (∀ sid name content, sid ≠ "" → name ≠ "" → content ≠ "" →
     putObject name content = WriteOk →
     inline_upload putObject (Some sid) (Some name) (Some content) = Stored name).
Proof.
  unfold inline_upload. split_and!.
  - intros Hf. unfold truthy at 3. rewrite Hf.
    by destruct (truthy subjectId), (truthy filename).
  - intros key.
    destruct (truthy subjectId) as [sid|]; [|done].
    destruct (truthy filename) as [name|] eqn:Hname; [|done].
    destruct (truthy fileContent) as [content|] eqn:Hcontent; [|done].
    destruct (putObject name content); [|done]. intros [= <-].
    apply truthy_Some in Hname as [-> _].
    apply truthy_Some in Hcontent as [-> Hne].
    split; [done|]. simpl. by apply bool_decide_eq_false.
  - intros sid name content Hs Hn Hc Hput.
    rewrite !truthy_nonempty by done. by rewrite Hput.
Qed.

Lemma inline_upload_key_witness :
  inline_upload (λ _ _, WriteOk) (Some "p1") (Some "a.csv") (Some "") =
    ValidationError ∧
  inline_upload (λ _ _, WriteOk) (Some "p1") (Some "a.csv") (Some "x,y") =
    Stored "a.csv".
Proof.
  split.
  - apply (inline_upload_key (λ _ _, WriteOk) (Some "p1") (Some "a.csv") (Some "")).
    reflexivity.
  - apply (inline_upload_key (λ _ _, WriteOk) None None None); done.
Defined.

End inline.

(** ** Client form *)

Section client.
Import Js Client.

Implicit Types (value : code_units) (e : option string).

Lemma phase_of_error_text e :
  phase_of (SetStatus (error_text e) true) = Some Error.
Proof. reflexivity. Qed.

Lemma phase_of_success_text (key : option string) :
  phase_of (SetStatus (success_text key) false) = Some Success.
Proof. reflexivity. Qed.

Lemma phases_catch e : phases (catch e) = [Error].
Proof. reflexivity. Qed.

Lemma ok_2xx (r : http_response) :
  ok r = true ↔ 200 ≤ resp_status r ≤ 299.
Proof. unfold ok. apply bool_decide_eq_true. Qed.

(** A submit that fails the local validation: one message, nothing else. *)
Lemma submit_invalid nke fetch value (files0 : option file) :
  trim value = [] ∨ files0 = None →
  ∃ message, submit nke fetch value files0 = [SetStatus message true] ∧
             phase_of (SetStatus message true) = None.
Proof.
  intros Hinv. unfold submit.
  case_bool_decide as Hf; [by eexists|].
  destruct Hinv as [Hv| ->]; [done|by eexists].
Qed.

(** A submit that passes the local validation. *)
Lemma submit_valid nke fetch value (file : file) :
  trim value ≠ [] →
  submit nke fetch value (Some file) =
    SetStatus "Uploading file, please wait..." false ::
    match file_text file with
    | Rejected e => catch e
    | Resolved fileText =>
        let request := FetchRequest API_URL "POST" "application/json"
                         (Payload (trim value) (file_name file) fileText) in
        Fetch request ::
        match fetch request with
        | Rejected e => catch e
        | Resolved response =>
            if ok response then
              match resp_json response with
              | Resolved JsonNull => catch nke
              | Resolved (JsonValue key) => [SetStatus (success_text key) false]
              | Rejected _ => [SetStatus (success_text None) false]
              end
            else
              match resp_text response with
              | Rejected e => catch e
              | Resolved text => catch (Some (api_error (resp_status response) text))
              end
        end
    end.
Proof.
  intros Hv. unfold submit.
  case_bool_decide as Hf; [done|].
  f_equal. destruct (file_text file) as [fileText|e]; [|done].
  simpl. f_equal. destruct (fetch _) as [response|e]; [|done].
  destruct (ok response); simpl; [|done].
  by destruct (resp_json response) as [[|key]|e'].
Qed.

(** A 2xx response whose body is the JSON value null: reading [data.key]
    throws, and the handler ends in the [catch] block. *)
Lemma submit_null_body nke fetch value (file : file) fileText response :
  trim value ≠ [] → file_text file = Resolved fileText →
  fetch (FetchRequest API_URL "POST" "application/json"
           (Payload (trim value) (file_name file) fileText)) = Resolved response →
  ok response = true → resp_json response = Resolved JsonNull →
  phases (submit nke fetch value (Some file)) = [Uploading; Error].
Proof.
  intros Hv Htext Hfetch Hok Hjson.
  rewrite submit_valid by done. rewrite Htext. simpl.
  by rewrite Hfetch, Hok, Hjson.
Qed.

(** C8, as amended: a submit whose subjectId is empty (after trimming) or
    that has no file selected issues no request and makes no transition.
    Any other submit first shows the uploading message and ends in Success
    or in Error.  It posts the payload once the file has been read.  It ends
    in Error, displaying the error message, when reading the file fails,
    when the request fails, and on every response whose status is not 2xx.
    On a 2xx response whose body is not the JSON value null it ends in
    Success, displaying the returned key when the body has one and the
    placeholder "(see Lambda logs)" when the body has no key or cannot be
    parsed.  (A 2xx response whose body is the JSON value null is not
    covered.) *)
Theorem submit_transitions (nke : option string)
    (fetch : fetch_request → promise http_response) value
    (files0 : option file) :
  let events := submit nke fetch value files0 in
  (trim value = [] ∨ files0 = None →
     requests events = [] ∧ phases events = []) ∧
  (∀ file : file, trim value ≠ [] → files0 = Some file →
     head events = Some (SetStatus "Uploading file, please wait..." false) ∧
     (phases events = [Uploading; Success] ∨ phases events = [Uploading; Error]) ∧
     (∀ e, file_text file = Rejected e →
        requests events = [] ∧
        phases events = [Uploading; Error] ∧
        shown events = Some (error_text e)) ∧
     (∀ fileText, file_text file = Resolved fileText →
        let request := FetchRequest API_URL "POST" "application/json"
                         (Payload (trim value) (file_name file) fileText) in
        requests events = [request] ∧
        (∀ e, fetch request = Rejected e →
           phases events = [Uploading; Error] ∧
           shown events = Some (error_text e)) ∧
        (∀ response, fetch request = Resolved response →
           (¬ 200 ≤ resp_status response ≤ 299 →
              phases events = [Uploading; Error] ∧
              (∀ text, resp_text response = Resolved text →
                 shown events =
                   Some (error_text (Some (api_error (resp_status response) text)))) ∧
              (∀ e, resp_text response = Rejected e →
                 shown events = Some (error_text e))) ∧
           (200 ≤ resp_status response ≤ 299 →
              (∀ key, resp_json response = Resolved (JsonValue key) →
                 phases events = [Uploading; Success] ∧
                 shown events = Some (success_text key)) ∧
              (∀ e, resp_json response = Rejected e →
                 phases events = [Uploading; Success] ∧
                 shown events = Some (success_text None)))))).
Proof.
  intros events. subst events. split.
  - intros Hinv.
    destruct (submit_invalid nke fetch value files0 Hinv) as (m & -> & Hm).
    split; [done|]. unfold phases. cbn -[phase_of]. by rewrite Hm.
  - intros file Hv ->. rewrite submit_valid by done.
    split_and!.
    + done.
    + destruct (file_text file) as [fileText|e]; [|by right].
      simpl. destruct (fetch _) as [response|e]; [|by right].
      destruct (ok response).
      * destruct (resp_json response) as [[|key]|e]; [by right|by left..].
      * destruct (resp_text response); by right.
    + by intros e ->.
    + intros fileText -> request. subst request. simpl.
      split_and!.
      * destruct (fetch _) as [response|e]; [|done].
        destruct (ok response).
        -- by destruct (resp_json response) as [[|key]|e].
        -- by destruct (resp_text response).
      * by intros e ->.
      * intros response ->. split.
        -- intros Hnot. assert (ok response = false) as ->.
           { apply not_true_is_false. by rewrite ok_2xx. }
           split_and!.
           ++ by destruct (resp_text response).
           ++ by intros text ->.
           ++ by intros e ->.
        -- intros Hok%ok_2xx. rewrite Hok. split.
           ++ by intros key ->.
           ++ by intros e ->.
Qed.

Lemma submit_transitions_witness :
  let fetch := λ _ : fetch_request,
    Resolved (HttpResponse 201 (Resolved "") (Resolved (JsonValue (Some "a.csv")))) in
  let file := File "a.csv" (Resolved "x,y") in
  let blank := [32; 160; 65279]%N in
  let padded := ([32] ++ ascii_units "p1" ++ [160])%N in
  let events := submit None fetch padded (Some file) in
  requests (submit None fetch blank (Some file)) = [] ∧
  phases (submit None fetch blank (Some file)) = [] ∧
  head events = Some (SetStatus "Uploading file, please wait..." false) ∧
  requests events =
    [FetchRequest API_URL "POST" "application/json"
       (Payload (ascii_units "p1") "a.csv" "x,y")] ∧
  phases events = [Uploading; Success] ∧
  shown events = Some (success_text (Some "a.csv")).
Proof.
  intros fetch file blank padded events.
  destruct (submit_transitions None fetch blank (Some file)) as [Hidle _].
  destruct (Hidle (or_introl eq_refl)) as [Hreq Hph].
  destruct (submit_transitions None fetch padded (Some file)) as [_ Hrun].
  destruct (Hrun file ltac:(by vm_compute) eq_refl)
    as (Hhead & _ & _ & Hread).
  destruct (Hread "x,y" eq_refl) as (Hposted & _ & Hresp).
  destruct (Hresp _ eq_refl) as [_ H2xx].
  assert (200 ≤ 201 ≤ 299) as Hstatus by lia.
  destruct (H2xx Hstatus) as [Hkey _].
  destruct (Hkey (Some "a.csv") eq_refl) as [Hphases Hshown].
  split_and!; done.
Defined.

(** C8, as stated, fails on a parsing failure: when the body of a 2xx
    response cannot be parsed, the handler replaces it by an empty object
    and ends in Success with the placeholder text, not in Error. *)
Lemma unparsable_body_ends_in_success :
  let fetch := λ _ : fetch_request,
    Resolved (HttpResponse 200 (Resolved "<html>")
                (Rejected (Some "Unexpected token '<'"))) in
  let events := submit None fetch (ascii_units "p1")
                  (Some (File "a.csv" (Resolved "x,y"))) in
  phases events = [Uploading; Success] ∧
  last (phases events) ≠ Some Error ∧
  shown events = Some ("Upload successful." +:+ newline +:+
                       "S3 key: (see Lambda logs)").
Proof. by vm_compute. Qed.

End client.

(** * Further properties of the handlers *)

(** ** What a request can do to the store *)

Section store_effects.
Import Js Http Auth.

Implicit Types (users s : list user) (u v : user) (i j : nat).
Implicit Types (auth : option string) (r : request).

(** X1: every response is 200, 400 or 401; only /register answers 400 and
    it never answers 401; a request that is not answered 200 leaves the
    account list exactly as it was. *)
Theorem failed_request_changes_nothing s r :
  (status (handle s r).2 = 200 ∨ status (handle s r).2 = 400 ∨
   status (handle s r).2 = 401) ∧
  (status (handle s r).2 = 400 → ∃ rnd n p rl, r = Register rnd n p rl) ∧
  (status (handle s r).2 = 401 → ∀ rnd n p rl, r ≠ Register rnd n p rl) ∧
  (status (handle s r).2 ≠ 200 → (handle s r).1 = s).
Proof.
  destruct r as [rnd n p|rnd n p rl|a|a n rl]; simpl.
  - unfold login. destruct (find_credentials n p s) as [[i u]|]; simpl;
      split_and!; try done; auto.
  - unfold register.
    destruct (truthy n), (truthy p), (truthy rl); try destruct (some_username _ s);
      simpl; split_and!; try done; eauto 10.
  - unfold profile. destruct (find_token a s) as [[i u]|]; simpl;
      split_and!; try done; auto.
  - unfold update_profile. destruct (find_token a s) as [[i u]|]; simpl;
      split_and!; try done; auto.
Qed.

Lemma failed_request_changes_nothing_witness :
  let s := [User "alice" "pw" "analyst" (Some "abc")] in
  (handle s (Login "0.xyz" (Some "alice") (Some "guess"))).1 = s ∧
  (handle s (Register "0.xyz" (Some "alice") (Some "pw2") (Some "coach"))).1 = s ∧
  ∃ rnd n p rl,
    Register "0.xyz" (Some "alice") (Some "pw2") (Some "coach") = Register rnd n p rl.
Proof.
  intros s. split_and!.
  - by apply (failed_request_changes_nothing s (Login "0.xyz" (Some "alice") (Some "guess"))).
  - by apply (failed_request_changes_nothing s
                (Register "0.xyz" (Some "alice") (Some "pw2") (Some "coach"))).
  - by apply (failed_request_changes_nothing s
                (Register "0.xyz" (Some "alice") (Some "pw2") (Some "coach"))).
Defined.

(** X2: the account list grows by one on a /register that is answered 200
    and keeps its length on every other request. *)
Theorem only_register_adds_account s r :
  length (handle s r).1 =
    length s +
    match r with
    | Register _ _ _ _ => if bool_decide (status (handle s r).2 = 200) then 1 else 0
    | _ => 0
    end.
Proof.
  destruct r as [rnd n p|rnd n p rl|a|a n rl]; simpl.
  - unfold login. destruct (find_credentials n p s) as [[i u]|]; simpl;
      [rewrite length_insert|]; lia.
  - unfold register.
    destruct (truthy n), (truthy p), (truthy rl); try destruct (some_username _ s);
      simpl; rewrite ?length_app; simpl; lia.
  - unfold profile. destruct (find_token a s) as [[i u]|]; simpl; lia.
  - unfold update_profile. destruct (find_token a s) as [[i u]|]; simpl;
      [rewrite length_insert|]; lia.
Qed.

Lemma handle_keeps_password s r i u :
  s !! i = Some u →
  ∃ v, (handle s r).1 !! i = Some v ∧ password v = password u.
Proof.
  intros Hi. assert (i < length s) as Hlt by by eapply lookup_lt_Some.
  destruct r as [rnd n p|rnd n p rl|a|a n rl]; simpl.
  - unfold login.
    destruct (find_credentials n p s) as [[j w]|] eqn:Hf; simpl; [|eauto].
    apply list_find_Some in Hf as (Hj & _).
    destruct (decide (j = i)) as [->|Hne].
    + rewrite list_lookup_insert_eq by done. eexists. split; [done|].
      simpl. congruence.
    + rewrite list_lookup_insert_ne by done. eauto.
  - unfold register.
    destruct (truthy n), (truthy p), (truthy rl); try destruct (some_username _ s);
      simpl; eauto.
    exists u. split; [|done]. by apply lookup_app_l_Some.
  - unfold profile. destruct (find_token a s) as [[? ?]|]; eauto.
  - unfold update_profile.
    destruct (find_token a s) as [[j w]|] eqn:Hf; simpl; [|eauto].
    apply find_token_lookup in Hf.
    destruct (decide (j = i)) as [->|Hne].
    + rewrite list_lookup_insert_eq by done. eexists. split; [done|].
      rewrite assign_supplied_fields. simpl. congruence.
    + rewrite list_lookup_insert_ne by done. eauto.
Qed.

(** X3: an account is never removed and never moves, and no request changes
    its password: the account at index [i] is still at index [i], with the
    same password, after any sequence of requests. *)
Theorem password_never_changes (reqs : list request) s i u :
  s !! i = Some u →
  ∃ v, run reqs s !! i = Some v ∧ password v = password u.
Proof.
  revert s u. induction reqs as [|r reqs IH]; intros s u Hi; [eauto|].
  destruct (handle_keeps_password s r i u Hi) as (v & Hv & Hpw).
  change (run (r :: reqs) s) with (run reqs (handle s r).1).
  destruct (IH _ _ Hv) as (w & Hw & Hpw'). exists w. split; [done|congruence].
Qed.

Lemma password_never_changes_witness :
  ∃ v, run [Login "0.t2" (Some "alice") (Some "pw");
            UpdateProfile (Some "t2") (Some "alicia") (Some "coach")]
           [User "alice" "pw" "analyst" (Some "t1")] !! 0 = Some v ∧
       password v = "pw".
Proof.
  apply (password_never_changes
           [Login "0.t2" (Some "alice") (Some "pw");
            UpdateProfile (Some "t2") (Some "alicia") (Some "coach")]
           [User "alice" "pw" "analyst" (Some "t1")] 0
           (User "alice" "pw" "analyst" (Some "t1"))).
  reflexivity.
Defined.

(** Every account has a non-empty username, password and role. *)
Lemma handle_fields_nonempty s r :
  Forall (λ u, username u ≠ "" ∧ password u ≠ "" ∧ role u ≠ "") s →
  Forall (λ u, username u ≠ "" ∧ password u ≠ "" ∧ role u ≠ "") (handle s r).1.
Proof.
  intros Hs. destruct r as [rnd n p|rnd n p rl|a|a n rl]; simpl.
  - unfold login.
    destruct (find_credentials n p s) as [[j w]|] eqn:Hf; simpl; [|done].
    apply list_find_Some in Hf as (Hj & _).
    apply Forall_insert; [done|]. by apply (Forall_lookup_1 _ _ _ _ Hs Hj).
  - unfold register.
    destruct (truthy n) as [name|] eqn:Hn; [|done].
    destruct (truthy p) as [pw|] eqn:Hp; [|done].
    destruct (truthy rl) as [rl'|] eqn:Hrl; [|done].
    destruct (some_username name s); [done|]. simpl.
    apply Forall_app. split; [done|]. apply Forall_singleton. simpl.
    apply truthy_Some in Hn as [_ ?], Hp as [_ ?], Hrl as [_ ?]. done.
  - unfold profile. by destruct (find_token a s) as [[? ?]|].
  - unfold update_profile.
    destruct (find_token a s) as [[j w]|] eqn:Hf; simpl; [|done].
    apply find_token_lookup in Hf.
    apply Forall_insert; [done|].
    destruct (Forall_lookup_1 _ _ _ _ Hs Hf) as (Hn & Hp & Hr).
    rewrite assign_supplied_fields. simpl. unfold or_else. split_and!; [|done|].
    + destruct (truthy n) as [name|] eqn:Hname; [|done].
      by apply truthy_Some in Hname as [_ ?].
    + destruct (truthy rl) as [rl'|] eqn:Hrl; [|done].
      by apply truthy_Some in Hrl as [_ ?].
Qed.

Lemma run_fields_nonempty (reqs : list request) s :
  Forall (λ u, username u ≠ "" ∧ password u ≠ "" ∧ role u ≠ "") s →
  Forall (λ u, username u ≠ "" ∧ password u ≠ "" ∧ role u ≠ "") (run reqs s).
Proof.
  revert s. induction reqs as [|r reqs IH]; intros s Hs; [done|].
  change (run (r :: reqs) s) with (run reqs (handle s r).1).
  by apply IH, handle_fields_nonempty.
Qed.

(** X4: in every store reached from the empty one, every account has a
    non-empty username, a non-empty password and a non-empty role:
    /register refuses empty fields and /update-profile overwrites a field
    only with a non-empty value. *)
Theorem stored_fields_never_empty (reqs : list request) :
  Forall (λ u, username u ≠ "" ∧ password u ≠ "" ∧ role u ≠ "")
         (run reqs initial).
Proof. apply run_fields_nonempty, Forall_nil_2. Qed.

(** X5: on a store reached from the empty one, /login without a username
    or a password, or with an empty one, is answered 401 and changes
    nothing. *)
Theorem login_needs_both_fields (reqs : list request) (rnd : string)
    (n p : option string) :
  falsy n || falsy p = true →
  login rnd n p (run reqs initial) =
    (run reqs initial, res_status_json 401 (ErrorJson "Invalid Login")).
Proof.
  intros Hf. unfold login.
  assert (find_credentials n p (run reqs initial) = None) as ->; [|done].
  apply list_find_None.
  eapply Forall_impl; [apply (run_fields_nonempty reqs initial), Forall_nil_2|].
  intros u (Hn & Hp & _) [Hun Hup]. simpl in *.
  apply orb_true_iff in Hf as [Hf|Hf].
  - destruct n as [x|]; [|done]. simpl in Hf. apply bool_decide_eq_true in Hf.
    congruence.
  - destruct p as [x|]; [|done]. simpl in Hf. apply bool_decide_eq_true in Hf.
    congruence.
Qed.

Lemma login_needs_both_fields_witness :
  let reqs := [Register "0.abc" (Some "alice") (Some "pw") (Some "analyst")] in
  login "0.xyz" (Some "alice") (Some "") (run reqs initial) =
    (run reqs initial, res_status_json 401 (ErrorJson "Invalid Login")).
Proof.
  apply (login_needs_both_fields
           [Register "0.abc" (Some "alice") (Some "pw") (Some "analyst")]
           "0.xyz" (Some "alice") (Some "")).
  reflexivity.
Defined.

End store_effects.

(** ** How the handlers compose *)

Section composition.
Import Js Http Auth.

Implicit Types (users s : list user) (u v : user) (i j : nat).
Implicit Types (auth : option string) (r : request).

(** X6: an account that has just been registered can log in: after a
    successful /register of [name], [pw], [rl], a /login with [name] and
    [pw] is answered 200 with that username and role, and it puts its new
    token on the account that /register appended. *)
Theorem register_then_login s (name pw rl : string) (rnd1 rnd2 : string) :
  name ≠ "" → pw ≠ "" → rl ≠ "" →
  Forall (λ u, username u ≠ name) s →
  let s1 := (register rnd1 (Some name) (Some pw) (Some rl) s).1 in
  login rnd2 (Some name) (Some pw) s1 =
    (s ++ [User name pw rl (Some (generateToken rnd2))],
     res_json (SessionJson (generateToken rnd2) name rl)).
Proof.
  intros Hn Hp Hr Hfresh s1. subst s1.
  rewrite register_fresh by done. simpl.
  assert (find_credentials (Some name) (Some pw)
            (s ++ [User name pw rl (Some (generateToken rnd1))]) =
          Some (length s, User name pw rl (Some (generateToken rnd1)))) as Hf.
  { apply list_find_Some. split; [|split].
    - by rewrite lookup_app_r, Nat.sub_diag.
    - done.
    - intros j y Hj Hlt [Hname _].
      rewrite lookup_app_l in Hj by done.
      apply (Forall_lookup_1 _ _ _ _ Hfresh Hj). congruence. }
  rewrite (login_found _ _ _ _ _ _ Hf). f_equal.
  replace (length s) with (length s + 0) by lia.
  by rewrite insert_app_r.
Qed.

Lemma register_then_login_witness :
  login "0.t2" (Some "bob") (Some "pw2")
    (register "0.t1" (Some "bob") (Some "pw2") (Some "coach")
       [User "alice" "pw" "analyst" (Some "abc")]).1 =
  ([User "alice" "pw" "analyst" (Some "abc")] ++
     [User "bob" "pw2" "coach" (Some (generateToken "0.t2"))],
   res_json (SessionJson (generateToken "0.t2") "bob" "coach")).
Proof.
  apply (register_then_login [User "alice" "pw" "analyst" (Some "abc")]
           "bob" "pw2" "coach" "0.t1" "0.t2"); [done..|].
  apply Forall_singleton. done.
Defined.

(** X7: a login supersedes the previous token.  When a /login resolves to
    account [i] and draws a token different from [t], and no other account
    holds [t], then /profile and /update-profile presenting [t] are
    answered 401 afterwards. *)
Theorem login_supersedes_token s (rnd : string) (n p : option string) i u
    (t : string) :
  find_credentials n p s = Some (i, u) →
  generateToken rnd ≠ t →
  (∀ j v, s !! j = Some v → j ≠ i → sessionToken v ≠ Some t) →
  let s1 := (login rnd n p s).1 in
  profile (Some t) s1 =
    (s1, res_status_json 401 (ErrorJson "You are not logged in")) ∧
  ∀ n' rl' : option string,
    update_profile (Some t) n' rl' s1 =
      (s1, res_status_json 401 (ErrorJson "You are not logged in")).
Proof.
  intros Hf Hne Hothers s1. subst s1.
  rewrite (login_found _ _ _ _ _ _ Hf). simpl.
  apply unknown_token_rejected, Forall_lookup. intros j v Hj.
  apply list_lookup_insert_Some in Hj as [(-> & <- & _)|(Hji & Hj)].
  - simpl. congruence.
  - apply (Hothers j v Hj). congruence.
Qed.

Lemma login_supersedes_token_witness :
  let s1 := (login "0.t2" (Some "alice") (Some "pw")
               [User "alice" "pw" "analyst" (Some "t1")]).1 in
  profile (Some "t1") s1 =
    (s1, res_status_json 401 (ErrorJson "You are not logged in")) ∧
  ∀ n' rl' : option string,
    update_profile (Some "t1") n' rl' s1 =
      (s1, res_status_json 401 (ErrorJson "You are not logged in")).
Proof.
  apply (login_supersedes_token [User "alice" "pw" "analyst" (Some "t1")]
           "0.t2" (Some "alice") (Some "pw") 0
           (User "alice" "pw" "analyst" (Some "t1")) "t1").
  - reflexivity.
  - discriminate.
  - intros [|j] v Hj Hne; [done|]. by destruct j.
Defined.

(** /update-profile does not touch tokens, so its token still resolves to
    the account it has just written. *)
Lemma find_token_after_update auth (n rl : option string) s i u :
  find_token auth s = Some (i, u) →
  find_token auth (<[i := assign_supplied n rl u]> s) =
    Some (i, assign_supplied n rl u).
Proof.
  intros (Hi & Ht & Hmin)%find_token_Some. apply find_token_Some.
  split_and!.
  - apply list_lookup_insert_eq. by eapply lookup_lt_Some.
  - by rewrite assign_supplied_fields.
  - intros j y Hj Hlt. rewrite list_lookup_insert_ne in Hj by lia. eauto.
Qed.

Lemma assign_supplied_twice (n rl : option string) u :
  assign_supplied n rl (assign_supplied n rl u) = assign_supplied n rl u.
Proof.
  rewrite !assign_supplied_fields. simpl. unfold or_else.
  by destruct (truthy n), (truthy rl).
Qed.

(** X8: /update-profile is idempotent: sending the same update a second
    time leaves the store as the first one left it and gets the same
    answer. *)
Theorem update_profile_idempotent auth (n rl : option string) s :
  update_profile auth n rl (update_profile auth n rl s).1 =
    update_profile auth n rl s.
Proof.
  unfold update_profile at 2 3.
  destruct (find_token auth s) as [[i u]|] eqn:Hf; simpl.
  - unfold update_profile.
    rewrite (find_token_after_update auth n rl s i u Hf).
    by rewrite assign_supplied_twice, list_insert_insert_eq.
  - unfold update_profile. by rewrite Hf.
Qed.

(** X9: /profile reads what /update-profile wrote: when an update is
    answered with a username and a role, a /profile with the same
    Authorization header right after it returns that username and that
    role. *)
Theorem profile_after_update auth (n rl : option string) s (name rl' : string) :
  (update_profile auth n rl s).2 = res_json (UpdateJson true name rl') →
  profile auth (update_profile auth n rl s).1 =
    ((update_profile auth n rl s).1, res_json (ProfileJson name rl')).
Proof.
  unfold update_profile.
  destruct (find_token auth s) as [[i u]|] eqn:Hf; simpl; [|done].
  intros [= <- <-]. unfold profile.
  by rewrite (find_token_after_update auth n rl s i u Hf).
Qed.

Lemma profile_after_update_witness :
  let s := [User "alice" "pw" "analyst" (Some "abc")] in
  profile (Some "abc") (update_profile (Some "abc") None (Some "coach") s).1 =
    ((update_profile (Some "abc") None (Some "coach") s).1,
     res_json (ProfileJson "alice" "coach")).
Proof.
  apply (profile_after_update (Some "abc") None (Some "coach")
           [User "alice" "pw" "analyst" (Some "abc")] "alice" "coach").
  reflexivity.
Defined.

(** X10: /login changes nothing but one session token: the usernames,
    passwords and roles of all accounts are as before, and at most one
    account differs from what it was. *)
Theorem login_only_sets_token (rnd : string) (n p : option string) s :
  (λ u, (username u, password u, role u)) <$> (login rnd n p s).1 =
    (λ u, (username u, password u, role u)) <$> s ∧
  ∃ i, ∀ j, j ≠ i → (login rnd n p s).1 !! j = s !! j.
Proof.
  unfold login.
  destruct (find_credentials n p s) as [[i u]|] eqn:Hf; simpl.
  - apply list_find_Some in Hf as (Hi & _). split.
    + rewrite list_fmap_insert. apply list_insert_id.
      by rewrite list_lookup_fmap, Hi.
    + exists i. intros j Hj. by apply list_lookup_insert_ne.
  - split; [done|]. by exists 0.
Qed.

Lemma login_only_sets_token_witness :
  (λ u, (username u, password u, role u)) <$>
    (login "0.t2" (Some "alice") (Some "pw")
       [User "alice" "pw" "analyst" (Some "t1")]).1 =
  [("alice", "pw", "analyst")].
Proof.
  apply (login_only_sets_token "0.t2" (Some "alice") (Some "pw")
           [User "alice" "pw" "analyst" (Some "t1")]).
Defined.

Lemma run_unique_usernames (reqs : list request) s :
  (∀ a n rl, UpdateProfile a n rl ∈ reqs → truthy n = None) →
  unique_usernames s → unique_usernames (run reqs s).
Proof.
  revert s. induction reqs as [|r reqs IH]; intros s Hreqs Hs; [done|].
  change (run (r :: reqs) s) with (run reqs (handle s r).1).
  apply IH.
  - intros a n rl Hin. apply (Hreqs a n rl). by right.
  - apply handle_unique_usernames; [|done].
    intros a n rl ->. apply (Hreqs a n rl). by left.
Qed.

(** X11: as long as no /update-profile request supplies a username, no two
    accounts share a username: every store reached from the empty one by
    such a sequence of requests has unique usernames. *)
Theorem usernames_unique_without_rename (reqs : list request) :
  (∀ a n rl, UpdateProfile a n rl ∈ reqs → truthy n = None) →
  unique_usernames (run reqs initial).
Proof. intros Hreqs. apply run_unique_usernames; [done|apply NoDup_nil_2]. Qed.

Lemma usernames_unique_without_rename_witness :
  unique_usernames
    (run [Register "0.abc" (Some "alice") (Some "pw") (Some "analyst");
          Register "0.xyz" (Some "alice") (Some "pw2") (Some "coach");
          UpdateProfile (Some "abc") None (Some "coach")] initial).
Proof.
  apply (usernames_unique_without_rename
           [Register "0.abc" (Some "alice") (Some "pw") (Some "analyst");
            Register "0.xyz" (Some "alice") (Some "pw2") (Some "coach");
            UpdateProfile (Some "abc") None (Some "coach")]).
  intros a n rl Hin.
  apply elem_of_cons in Hin as [[=]|Hin].
  apply elem_of_cons in Hin as [[=]|Hin].
  apply elem_of_cons in Hin as [Heq|Hin]; [by inversion Heq|].
  by apply elem_of_nil in Hin.
Defined.

Lemma substring_all (s : string) : substring 0 (String.length s) s = s.
Proof. induction s as [|c s IH]; simpl; [done|by rewrite IH]. Qed.

(** X12: [generateToken] returns the digits after the point: on the
    rendering "0." followed by [digits] the token is [digits], and on a
    rendering shorter than three characters (the number 0 renders as "0")
    the token is the empty string. *)
Theorem generateToken_digits (digits random36 : string) :
  generateToken ("0." +:+ digits) = digits ∧
  (String.length random36 ≤ 2 → generateToken random36 = "").
Proof.
  split.
  - unfold generateToken, substring_from.
    change ("0." +:+ digits) with (String "0" (String "." digits)).
    simpl. rewrite Nat.sub_0_r. apply substring_all.
  - intros Hlen. unfold generateToken, substring_from.
    replace (String.length random36 - 2) with 0 by lia.
    destruct random36 as [|a [|b [|c rest]]]; simpl in *; done || lia.
Qed.

Lemma generateToken_digits_witness : generateToken "0" = "".
Proof. apply (generateToken_digits "" "0"). simpl. lia. Defined.

End composition.

(** ** The subject id and the request of the client form *)

Section client_requests.
Import Js Client.

Implicit Types (value s : code_units) (e : option string).

Lemma trim_start_blank s :
  trim_start s = [] ↔ Forall (λ c, is_white_space c = true) s.
Proof.
  induction s as [|a s IH]; simpl; [by split|].
  rewrite Forall_cons. destruct (is_white_space a) eqn:Ha.
  - rewrite IH. tauto.
  - split; [done|]. intros [? _]. congruence.
Qed.

Lemma trim_start_head s c :
  head (trim_start s) = Some c → is_white_space c = false.
Proof.
  induction s as [|a s IH]; simpl; [done|].
  destruct (is_white_space a) eqn:Ha; [done|]. simpl. by intros [= <-].
Qed.

Lemma trim_start_last s :
  trim_start s ≠ [] → last (trim_start s) = last s.
Proof.
  induction s as [|a s IH]; simpl; [done|].
  destruct (is_white_space a) eqn:Ha; [|done].
  intros Hne. rewrite (IH Hne).
  destruct s as [|b l]; [done|]. by rewrite last_cons_cons.
Qed.

Lemma trim_start_blank_self s :
  Forall (λ c, is_white_space c = true) (trim_start s) → trim_start s = [].
Proof.
  intros Hb. destruct (trim_start s) as [|c l] eqn:Hs; [done|].
  assert (is_white_space c = false) as Hc.
  { apply (trim_start_head s). by rewrite Hs. }
  apply Forall_cons in Hb as [Hb _]. congruence.
Qed.

(** [trim] returns the empty string exactly on the strings made of white
    space only. *)
Lemma trim_blank s :
  trim s = [] ↔ Forall (λ c, is_white_space c = true) s.
Proof.
  unfold trim. split.
  - intros Hr. apply (f_equal reverse) in Hr.
    rewrite reverse_involutive, reverse_nil in Hr.
    apply trim_start_blank in Hr. rewrite Forall_reverse in Hr.
    by apply trim_start_blank, trim_start_blank_self.
  - intros Hb%trim_start_blank. by rewrite Hb.
Qed.

(** What [trim] returns, when it is not empty, starts and ends with a
    code unit that is not white space. *)
Lemma trim_ends s :
  trim s ≠ [] →
  (∃ c, head (trim s) = Some c ∧ is_white_space c = false) ∧
  (∃ c, last (trim s) = Some c ∧ is_white_space c = false).
Proof.
  intros Hne. unfold trim in *.
  set (a := trim_start s) in *. set (b := trim_start (reverse a)) in *.
  assert (b ≠ []) as Hb by (intros Hb; by rewrite Hb in Hne).
  rewrite head_reverse, last_reverse. split.
  - unfold b. rewrite trim_start_last by done.
    rewrite last_reverse.
    destruct (head a) as [c|] eqn:Hc.
    + exists c. split; [done|]. by apply (trim_start_head s).
    + apply head_None in Hc. exfalso. apply Hb.
      unfold b. by rewrite Hc.
  - destruct (head b) as [c|] eqn:Hc.
    + exists c. split; [done|]. by apply (trim_start_head (reverse a)).
    + by apply head_None in Hc.
Qed.

(** [trim] removes nothing but white space: the input is the result
    between a run of white space and another. *)
Lemma trim_start_split s :
  ∃ before, s = before ++ trim_start s ∧
            Forall (λ c, is_white_space c = true) before.
Proof.
  induction s as [|a s (before & Hs & Hb)]; simpl; [by exists []|].
  destruct (is_white_space a) eqn:Ha; [|by exists []].
  exists (a :: before). split; [by rewrite <- app_comm_cons, <- Hs|].
  by apply Forall_cons.
Qed.

Lemma trim_split s :
  ∃ before after,
    s = before ++ trim s ++ after ∧
    Forall (λ c, is_white_space c = true) before ∧
    Forall (λ c, is_white_space c = true) after.
Proof.
  unfold trim.
  destruct (trim_start_split s) as (before & Hs & Hbefore).
  destruct (trim_start_split (reverse (trim_start s))) as (after & Hr & Hafter).
  exists before, (reverse after). split_and!; [|done|by apply Forall_reverse].
  rewrite <- reverse_app, <- Hr, reverse_involutive. done.
Qed.

Lemma requests_valid nke fetch value (file : file) :
  trim value ≠ [] →
  requests (submit nke fetch value (Some file)) =
    match file_text file with
    | Resolved fileText =>
        [FetchRequest API_URL "POST" "application/json"
           (Payload (trim value) (file_name file) fileText)]
    | Rejected _ => []
    end.
Proof.
  intros Hv. rewrite submit_valid by done.
  destruct (file_text file) as [fileText|e]; [|done].
  simpl. destruct (fetch _) as [response|e]; [|done].
  destruct (ok response).
  - by destruct (resp_json response) as [[|key]|e].
  - by destruct (resp_text response).
Qed.

(** X13: a submit issues at most one request, whatever the answers are.
    It issues none exactly when the subject id consists of white space only
    (or is empty), when no file is selected, or when reading the file
    fails.  White space is what [String.prototype.trim] strips: the
    Unicode white space and line terminators, not only the ASCII ones. *)
Theorem submit_posts_at_most_once (nke : option string)
    (fetch : fetch_request → promise http_response) value
    (files0 : option file) :
  let events := submit nke fetch value files0 in
  length (requests events) ≤ 1 ∧
  (requests events = [] ↔
     Forall (λ c, is_white_space c = true) value ∨ files0 = None ∨
     ∃ file e, files0 = Some file ∧ file_text file = Rejected e).
Proof.
  intros events. subst events.
  destruct (decide (trim value = [])) as [Hblank|Hvalue].
  { destruct (submit_invalid nke fetch value files0 (or_introl Hblank))
      as (m & -> & _).
    split; [simpl; lia|]. split; [|done].
    intros _. left. by apply trim_blank. }
  destruct files0 as [file|].
  - rewrite requests_valid by done.
    destruct (file_text file) as [fileText|e] eqn:Htext.
    + split; [simpl; lia|]. split; [done|].
      intros [Hb|[?|(f & e & [= <-] & He)]]; [|done|congruence].
      by apply trim_blank in Hb.
    + split; [simpl; lia|]. split; [|done].
      intros _. right. right. by exists file, e.
  - destruct (submit_invalid nke fetch value None (or_intror eq_refl))
      as (m & -> & _).
    split; [simpl; lia|]. split; [|done]. intros _. right. by left.
Qed.

(** X14: every request of a submit is a POST to [API_URL] with JSON
    content type whose subject id is the input without its leading and
    trailing white space: the input is the subject id sent between two runs
    of white space, and the subject id sent is not empty and neither starts
    nor ends with white space.  The filename sent is the name of the
    selected file. *)
Theorem posted_subject_is_trimmed (nke : option string)
    (fetch : fetch_request → promise http_response) value
    (files0 : option file) (request : fetch_request) :
  request ∈ requests (submit nke fetch value files0) →
  url request = API_URL ∧ method request = "POST" ∧
  content_type request = "application/json" ∧
  subjectId (body request) = trim value ∧
  Some (filename (body request)) = file_name <$> files0 ∧
  (∃ before after,
     value = before ++ subjectId (body request) ++ after ∧
     Forall (λ c, is_white_space c = true) before ∧
     Forall (λ c, is_white_space c = true) after) ∧
  (∃ c, head (subjectId (body request)) = Some c ∧ is_white_space c = false) ∧
  (∃ c, last (subjectId (body request)) = Some c ∧ is_white_space c = false).
Proof.
  destruct (decide (trim value = [])) as [Hblank|Hvalue].
  { destruct (submit_invalid nke fetch value files0 (or_introl Hblank))
      as (m & -> & _). by intros ?%elem_of_nil. }
  destruct files0 as [file|].
  - rewrite requests_valid by done.
    destruct (file_text file) as [fileText|e]; [|by intros ?%elem_of_nil].
    intros ->%list_elem_of_singleton. simpl.
    destruct (trim_ends value Hvalue) as [Hhead Hlast].
    split_and!; [done..|apply trim_split|done|done].
  - destruct (submit_invalid nke fetch value None (or_intror eq_refl))
      as (m & -> & _). by intros ?%elem_of_nil.
Qed.

Lemma posted_subject_is_trimmed_witness :
  let value := ([32; 8232] ++ ascii_units "p 1" ++ [160; 65279])%N in
  let request := FetchRequest API_URL "POST" "application/json"
                   (Payload (ascii_units "p 1") "a.csv" "x,y") in
  subjectId (body request) = trim value ∧
  Some (filename (body request)) = Some "a.csv".
Proof.
  intros value request.
  destruct (posted_subject_is_trimmed None (λ _, Rejected None) value
              (Some (File "a.csv" (Resolved "x,y"))) request)
    as (_ & _ & _ & Hsubject & Hname & _).
  - vm_compute. apply list_elem_of_singleton. reflexivity.
  - split; [exact Hsubject|exact Hname].
Defined.

End client_requests.

(** ** The status box of the client form *)

Section client_status.
Import Js Client.

Implicit Types (value : code_units) (e : option string) (box : status_box).

Lemma elem_of_toggle (c token : string) (force : bool) (classes : list string) :
  c ∈ toggle token force classes ↔
  (c = token ∧ force = true) ∨ (c ≠ token ∧ c ∈ classes).
Proof.
  unfold toggle. destruct force.
  - case_bool_decide as Hin.
    + destruct (decide (c = token)) as [->|Hne]; [by intuition|].
      split; [by right|]. by intros [[? _]|[_ ?]].
    + rewrite elem_of_app, list_elem_of_singleton.
      destruct (decide (c = token)) as [->|Hne]; [by intuition|].
      split; [intros [?|?]; [by right|done]|].
      intros [[? _]|[_ ?]]; [done|by left].
  - rewrite list_elem_of_filter. split; [by right|].
    by intros [[_ ?]|?].
Qed.

Lemma NoDup_toggle (token : string) (force : bool) (classes : list string) :
  NoDup classes → NoDup (toggle token force classes).
Proof.
  intros Hnd. unfold toggle. destruct force.
  - case_bool_decide as Hin; [done|].
    apply NoDup_app. split_and!; [done| |apply NoDup_singleton].
    intros x Hx ->%list_elem_of_singleton. done.
  - by apply NoDup_filter.
Qed.

(** What [setStatus] does to the status box. *)
Lemma setStatus_spec message (isError : bool) box :
  textContent (setStatus message isError box) = message ∧
  ("status-error" ∈ classList (setStatus message isError box) ↔ isError = true) ∧
  (∀ c, c ≠ "status-error" →
        (c ∈ classList (setStatus message isError box) ↔ c ∈ classList box)) ∧
  (NoDup (classList box) → NoDup (classList (setStatus message isError box))).
Proof.
  unfold setStatus. simpl. split_and!.
  - done.
  - rewrite elem_of_toggle. split; [by intros [[_ ?]|[? _]]|by left].
  - intros c Hc. rewrite elem_of_toggle. split; [by intros [[? _]|[_ ?]]|by right].
  - apply NoDup_toggle.
Qed.

(** Two calls of [setStatus] in a row leave what the second call alone
    would leave, as far as the text and the membership of classes go. *)
Lemma setStatus_twice_spec m1 (f1 : bool) m2 (f2 : bool) box :
  textContent (setStatus m2 f2 (setStatus m1 f1 box)) = m2 ∧
  ("status-error" ∈ classList (setStatus m2 f2 (setStatus m1 f1 box)) ↔
     f2 = true) ∧
  (∀ c, c ≠ "status-error" →
        (c ∈ classList (setStatus m2 f2 (setStatus m1 f1 box)) ↔
         c ∈ classList box)) ∧
  (NoDup (classList box) →
   NoDup (classList (setStatus m2 f2 (setStatus m1 f1 box)))).
Proof.
  destruct (setStatus_spec m1 f1 box) as (_ & _ & Hc1 & Hn1).
  destruct (setStatus_spec m2 f2 (setStatus m1 f1 box)) as (Ht & He & Hc2 & Hn2).
  split_and!; [done..| |by auto].
  intros c Hc. by rewrite Hc2, Hc1.
Qed.

Lemma display_catch e box m (f : bool) :
  display (SetStatus m f :: catch e) box =
    setStatus (error_text e) true (setStatus m f box).
Proof. reflexivity. Qed.

Lemma display_fetch_catch e box m (f : bool) (request : fetch_request) :
  display (SetStatus m f :: Fetch request :: catch e) box =
    setStatus (error_text e) true (setStatus m f box).
Proof. reflexivity. Qed.

(** X15: after a submit, the status box shows the last message of the
    run, and it carries the class status-error exactly when the run did not
    end in Success: a failed validation and a failed upload are styled as
    errors, and a successful upload removes the styling that an earlier
    failed submit left.  No other class of the box is added or removed, and
    no class is duplicated. *)
Theorem status_box_after_submit (nke : option string)
    (fetch : fetch_request → promise http_response) value
    (files0 : option file) box :
  let events := submit nke fetch value files0 in
  let box' := display events box in
  shown events = Some (textContent box') ∧
  ("status-error" ∈ classList box' ↔ last (phases events) ≠ Some Success) ∧
  (∀ c, c ≠ "status-error" → (c ∈ classList box' ↔ c ∈ classList box)) ∧
  (NoDup (classList box) → NoDup (classList box')).
Proof.
  intros events box'. subst events box'.
  assert (∀ m, phase_of (SetStatus m true) = None →
            shown [SetStatus m true] =
              Some (textContent (display [SetStatus m true] box)) ∧
            ("status-error" ∈ classList (display [SetStatus m true] box) ↔
               last (phases [SetStatus m true]) ≠ Some Success) ∧
            (∀ c, c ≠ "status-error" →
               (c ∈ classList (display [SetStatus m true] box) ↔
                c ∈ classList box)) ∧
            (NoDup (classList box) →
             NoDup (classList (display [SetStatus m true] box)))) as Hinvalid.
  { intros m Hm. change (display [SetStatus m true] box) with (setStatus m true box).
    destruct (setStatus_spec m true box) as (Ht & He & Hc & Hn).
    split_and!; [done| |done..].
    rewrite He. unfold phases. cbn -[phase_of]. rewrite Hm. simpl.
    split; done. }
  destruct (decide (trim value = [])) as [Hblank|Hvalue].
  { destruct (submit_invalid nke fetch value files0 (or_introl Hblank))
      as (m & -> & Hm). by apply Hinvalid. }
  destruct files0 as [file|]; cycle 1.
  { destruct (submit_invalid nke fetch value None (or_intror eq_refl))
      as (m & -> & Hm). by apply Hinvalid. }
  rewrite submit_valid by done.
  assert (∀ e' events,
            events = SetStatus "Uploading file, please wait..." false :: catch e' ∨
            (∃ request, events =
               SetStatus "Uploading file, please wait..." false ::
               Fetch request :: catch e') →
            shown events = Some (textContent (display events box)) ∧
            ("status-error" ∈ classList (display events box) ↔
               last (phases events) ≠ Some Success) ∧
            (∀ c, c ≠ "status-error" →
               (c ∈ classList (display events box) ↔ c ∈ classList box)) ∧
            (NoDup (classList box) → NoDup (classList (display events box))))
    as Hfailed.
  { intros e' events Hev.
    destruct (setStatus_twice_spec "Uploading file, please wait..." false
                (error_text e') true box) as (Ht & He & Hc & Hn).
    destruct Hev as [->|[request ->]].
    - rewrite display_catch. split_and!; [done| |done..].
      rewrite He. split; done.
    - rewrite display_fetch_catch. split_and!; [done| |done..].
      rewrite He. split; done. }
  assert (∀ key request,
            let events := [SetStatus "Uploading file, please wait..." false;
                           Fetch request; SetStatus (success_text key) false] in
            shown events = Some (textContent (display events box)) ∧
            ("status-error" ∈ classList (display events box) ↔
               last (phases events) ≠ Some Success) ∧
            (∀ c, c ≠ "status-error" →
               (c ∈ classList (display events box) ↔ c ∈ classList box)) ∧
            (NoDup (classList box) → NoDup (classList (display events box))))
    as Hsucceeded.
  { intros key request events. subst events.
    change (display _ box) with
      (setStatus (success_text key) false
         (setStatus "Uploading file, please wait..." false box)).
    destruct (setStatus_twice_spec "Uploading file, please wait..." false
                (success_text key) false box) as (Ht & He & Hc & Hn).
    split_and!; [done| |done..].
    rewrite He. split; [done|]. intros Hlast. by exfalso. }
  destruct (file_text file) as [fileText|e]; [|apply (Hfailed e); by left].
  cbn zeta. destruct (fetch _) as [response|e]; [|apply (Hfailed e); eauto].
  destruct (ok response).
  - destruct (resp_json response) as [[|key]|e].
    + apply (Hfailed nke); eauto.
    + apply Hsucceeded.
    + apply Hsucceeded.
  - destruct (resp_text response) as [text|e].
    + apply (Hfailed (Some (api_error (resp_status response) text))); eauto.
    + apply (Hfailed e); eauto.
Qed.

Lemma status_box_after_submit_witness :
  let fetch := λ _ : fetch_request,
    Resolved (HttpResponse 200 (Resolved "")
                (Resolved (JsonValue (Some "a.csv")))) in
  let events := submit None fetch (ascii_units "p1")
                  (Some (File "a.csv" (Resolved "x,y"))) in
  let box := StatusBox "Please choose a CSV file to upload."
               ["status"; "status-error"] in
  ("status" ∈ classList (display events box)) ∧
  ("status-error" ∉ classList (display events box)) ∧
  NoDup (classList (display events box)).
Proof.
  intros fetch events box.
  destruct (status_box_after_submit None fetch (ascii_units "p1")
              (Some (File "a.csv" (Resolved "x,y"))) box)
    as (_ & Herror & Hclasses & Hnodup).
  split_and!.
  - apply Hclasses; [discriminate|]. apply elem_of_cons. by left.
  - intros Hin. by apply Herror in Hin.
  - apply Hnodup. apply NoDup_cons. split; [|apply NoDup_singleton].
    intros Hin%list_elem_of_singleton. discriminate.
Defined.

End client_status.

(** ** Errors of the client form *)

Section client_errors.
Import Js Client.

Implicit Types (value : code_units) (e : option string).

Lemma console_error_in_catch e e' (prefix : list event) :
  (∀ e'', ConsoleError e'' ∉ prefix) →
  ConsoleError e ∈ prefix ++ catch e' ↔ e = e'.
Proof.
  intros Hprefix. rewrite elem_of_app. unfold catch.
  rewrite !elem_of_cons, elem_of_nil. split.
  - intros [Hin|[[= ->]|[[=]|[]]]]; [by apply Hprefix in Hin|done].
  - intros ->. right. by left.
Qed.

(** X16: the handler logs an error to the console exactly when the run
    ends in Error, and the message then shown in the status box is the one
    of the error that was logged (or "Unknown error" when it has none). *)
Theorem error_logged_iff_shown (nke : option string)
    (fetch : fetch_request → promise http_response) value
    (files0 : option file) :
  let events := submit nke fetch value files0 in
  ((∃ e, ConsoleError e ∈ events) ↔ last (phases events) = Some Error) ∧
  (∀ e, ConsoleError e ∈ events → shown events = Some (error_text e)).
Proof.
  intros events. subst events.
  assert (∀ m, phase_of (SetStatus m true) = None →
            ((∃ e, ConsoleError e ∈ [SetStatus m true]) ↔
               last (phases [SetStatus m true]) = Some Error) ∧
            (∀ e, ConsoleError e ∈ [SetStatus m true] →
               shown [SetStatus m true] = Some (error_text e))) as Hinvalid.
  { intros m Hm. unfold phases. cbn -[phase_of]. rewrite Hm. simpl. split.
    - split; [|done]. by intros [e [[=]|[]%elem_of_nil]%elem_of_cons].
    - by intros e [[=]|[]%elem_of_nil]%elem_of_cons. }
  destruct (decide (trim value = [])) as [Hblank|Hvalue].
  { destruct (submit_invalid nke fetch value files0 (or_introl Hblank))
      as (m & -> & Hm). by apply Hinvalid. }
  destruct files0 as [file|]; cycle 1.
  { destruct (submit_invalid nke fetch value None (or_intror eq_refl))
      as (m & -> & Hm). by apply Hinvalid. }
  rewrite submit_valid by done.
  assert (∀ e' (prefix : list event),
            prefix = [SetStatus "Uploading file, please wait..." false] ∨
            (∃ request, prefix =
               [SetStatus "Uploading file, please wait..." false; Fetch request]) →
            ((∃ e, ConsoleError e ∈ prefix ++ catch e') ↔
               last (phases (prefix ++ catch e')) = Some Error) ∧
            (∀ e, ConsoleError e ∈ prefix ++ catch e' →
               shown (prefix ++ catch e') = Some (error_text e))) as Hfailed.
  { intros e' prefix Hprefix.
    assert (∀ e'', ConsoleError e'' ∉ prefix) as Hnone.
    { intros e'' Hin. destruct Hprefix as [->|[request ->]].
      - by apply elem_of_cons in Hin as [[=]|[]%elem_of_nil].
      - apply elem_of_cons in Hin as [[=]|Hin].
        by apply elem_of_cons in Hin as [[=]|[]%elem_of_nil]. }
    split.
    - split; [|intros _; exists e'; by apply console_error_in_catch].
      intros _. by destruct Hprefix as [->|[request ->]].
    - intros e ->%console_error_in_catch; [|done].
      by destruct Hprefix as [->|[request ->]]. }
  assert (∀ key request,
            let events := [SetStatus "Uploading file, please wait..." false;
                           Fetch request; SetStatus (success_text key) false] in
            ((∃ e, ConsoleError e ∈ events) ↔ last (phases events) = Some Error) ∧
            (∀ e, ConsoleError e ∈ events → shown events = Some (error_text e)))
    as Hsucceeded.
  { intros key request events. subst events.
    assert (∀ e, ConsoleError e ∉
              [SetStatus "Uploading file, please wait..." false;
               Fetch request; SetStatus (success_text key) false]) as Hnone.
    { intros e Hin.
      apply elem_of_cons in Hin as [[=]|Hin].
      apply elem_of_cons in Hin as [[=]|Hin].
      by apply elem_of_cons in Hin as [[=]|[]%elem_of_nil]. }
    split.
    - split; [by intros [e ?%Hnone]|done].
    - by intros e ?%Hnone. }
  destruct (file_text file) as [fileText|e].
  - cbn zeta. destruct (fetch _) as [response|e].
    + destruct (ok response).
      * destruct (resp_json response) as [[|key]|e].
        -- apply (Hfailed nke [_; _]); eauto.
        -- apply Hsucceeded.
        -- apply Hsucceeded.
      * destruct (resp_text response) as [text|e].
        -- apply (Hfailed (Some (api_error (resp_status response) text)) [_; _]);
             eauto.
        -- apply (Hfailed e [_; _]); eauto.
    + apply (Hfailed e [_; _]); eauto.
  - apply (Hfailed e [_]); eauto.
Qed.

Lemma error_logged_iff_shown_witness :
  let fetch := λ _ : fetch_request, Rejected (Some "Failed to fetch") in
  let events := submit None fetch (ascii_units "p1")
                  (Some (File "a.csv" (Resolved "x,y"))) in
  shown events = Some (error_text (Some "Failed to fetch")).
Proof.
  intros fetch events.
  apply (error_logged_iff_shown None fetch (ascii_units "p1")
           (Some (File "a.csv" (Resolved "x,y")))).
  apply elem_of_cons. right. apply elem_of_cons. right.
  apply elem_of_cons. by left.
Defined.

End client_errors.

(** ** Renaming an account *)

Section renaming.
Import Js Http Auth.

Implicit Types (users s : list user) (u v : user) (i j : nat).
Implicit Types (auth : option string).

(** X17: credentials follow a rename.  On a store with unique usernames,
    after /update-profile has given the account a username that no account
    had, a /login with the old username is answered 401 and a /login with
    the new username and the unchanged password succeeds on that account. *)
Theorem login_follows_rename auth s i u (name : string) (rnd : string) :
  unique_usernames s →
  find_token auth s = Some (i, u) →
  name ≠ "" → Forall (λ v, username v ≠ name) s →
  let s1 := (update_profile auth (Some name) None s).1 in
  login rnd (Some (username u)) (Some (password u)) s1 =
    (s1, res_status_json 401 (ErrorJson "Invalid Login")) ∧
  login rnd (Some name) (Some (password u)) s1 =
    (<[i := User name (password u) (role u) (Some (generateToken rnd))]> s1,
     res_json (SessionJson (generateToken rnd) name (role u))).
Proof.
  intros Huniq Hf Hname Hfresh s1. subst s1.
  pose proof (find_token_lookup _ _ _ _ Hf) as Hi.
  assert (i < length s) as Hlt by by eapply lookup_lt_Some.
  rewrite (update_profile_found auth _ _ s i u Hf), assign_supplied_fields.
  simpl. rewrite (or_else_falsy None) by done.
  unfold or_else. rewrite truthy_nonempty by done.
  set (u' := User name (password u) (role u) (sessionToken u)).
  assert (username u ≠ name) as Hold.
  { by apply (Forall_lookup_1 _ _ _ _ Hfresh Hi). }
  split.
  - unfold login.
    assert (find_credentials (Some (username u)) (Some (password u))
              (<[i := u']> s) = None) as ->; [|done].
    apply list_find_None, Forall_lookup. intros j v Hj [Hn _].
    apply list_lookup_insert_Some in Hj as [(-> & <- & _)|(Hji & Hj)].
    + simpl in Hn. congruence.
    + apply Hji. symmetry.
      apply (unique_usernames_lookup s j i v u Huniq Hj Hi). congruence.
  - assert (find_credentials (Some name) (Some (password u)) (<[i := u']> s) =
            Some (i, u')) as Hfound.
    { apply list_find_Some. split; [|split].
      - by apply list_lookup_insert_eq.
      - done.
      - intros j v Hj Hji [Hn _].
        rewrite list_lookup_insert_ne in Hj by lia.
        apply (Forall_lookup_1 _ _ _ _ Hfresh Hj). congruence. }
    by rewrite (login_found _ _ _ _ _ _ Hfound).
Qed.

Lemma login_follows_rename_witness :
  let s := [User "alice" "pw" "analyst" (Some "abc")] in
  let s1 := (update_profile (Some "abc") (Some "alicia") None s).1 in
  login "0.xyz" (Some "alice") (Some "pw") s1 =
    (s1, res_status_json 401 (ErrorJson "Invalid Login")) ∧
  login "0.xyz" (Some "alicia") (Some "pw") s1 =
    (<[0 := User "alicia" "pw" "analyst" (Some (generateToken "0.xyz"))]> s1,
     res_json (SessionJson (generateToken "0.xyz") "alicia" "analyst")).
Proof.
  apply (login_follows_rename (Some "abc")
           [User "alice" "pw" "analyst" (Some "abc")] 0
           (User "alice" "pw" "analyst" (Some "abc")) "alicia" "0.xyz").
  - apply NoDup_singleton.
  - reflexivity.
  - discriminate.
  - apply Forall_singleton. discriminate.
Defined.

End renaming.
